(** * The OAuth credential manager of sharesight-mcp (src/oauth.ts)

    A shallow embedding of the [OAuthManager] class and of the part of the
    JavaScript platform it runs on (strings, the values [JSON.parse] can
    return, [JSON.stringify], [URLSearchParams], one file, one clock and the
    replies of the token endpoint), followed by the properties of the
    credential life cycle.

    Conventions of the model.
    - A JavaScript string is the list of its UTF-16 code units.
    - A JavaScript number is modelled exactly, as an integer or a decimal
      fraction, without the rounding of IEEE doubles.  The two agree on the
      integers of magnitude at most 2^53, which include every instant of
      [Date.now()]; a lifetime that takes the expiry computation beyond
      them is rounded by the code and not by the model.
    - The file system is the single file [tokens.json]; it is modelled by
      the text [readFileSync(path, "utf-8")] would return for it.  Failures
      of the file system itself (permissions, full disk) are not modelled.
    - A successful response body is taken at the type the code casts it
      to ([TokenResponse]). *)

From Stdlib Require Import ZArith NArith List Bool String Ascii Lia.
From Stdlib Require Import DecimalN DecimalPos DecimalFacts.
Import ListNotations.
Set Warnings "-register-all".
Open Scope Z_scope.
Open Scope list_scope.

(** ** JavaScript strings and values *)

Module JS.

Definition jstring := list N.

(** The code units of an ASCII literal. *)
Definition lit (s : string) : jstring :=
  map N_of_ascii (list_ascii_of_string s).

Definition jstring_eqb (a b : jstring) : bool :=
  if list_eq_dec N.eq_dec a b then true else false.

Inductive number :=
| Int (z : Z)                       (* the integer z *)
| Dec (m : Z) (k : positive).       (* m / 10^k, with 10 not dividing m *)

Inductive value :=
| VUndef
| VNull
| VBool (b : bool)
| VNum (n : number)
| VStr (s : jstring)
| VArr (l : list value)
| VObj (props : list (jstring * value)).

(** What a JavaScript computation can throw here. *)
Inductive thrown :=
| Error (message : jstring)         (* [new Error(message)] *)
| TypeError                         (* raised by the platform on a value *)
| FsError                           (* raised by the file system *)
| SyntaxError                       (* raised by [JSON.parse] *)
| FetchFailed                       (* [fetch] rejected: no response *)
| BodyFailed.                       (* reading a response body rejected *)

Inductive result (A : Type) :=
| Ok (a : A)
| Throw (e : thrown).
Arguments Ok {A} a.
Arguments Throw {A} e.

Definition is_zero (n : number) : bool :=
  match n with
  | Int z => z =? 0
  | Dec m _ => m =? 0
  end.

(** ToBoolean. *)
Definition truthy (v : value) : bool :=
  match v with
  | VUndef | VNull => false
  | VBool b => b
  | VNum n => negb (is_zero n)
  | VStr s => match s with [] => false | _ => true end
  | VArr _ | VObj _ => true
  end.

Fixpoint lookup (k : jstring) (props : list (jstring * value)) : value :=
  match props with
  | [] => VUndef
  | (k', v) :: rest => if jstring_eqb k k' then v else lookup k rest
  end.

Fixpoint has_key (k : jstring) (props : list (jstring * value)) : bool :=
  match props with
  | [] => false
  | (k', _) :: rest => jstring_eqb k k' || has_key k rest
  end.

(** [v.k] for one of the names the manager reads ([access_token],
    [refresh_token], [expires_at]): an own property of an object, nothing
    on a primitive or an array, a TypeError on null and undefined. *)
Definition get (v : value) (k : jstring) : result value :=
  match v with
  | VUndef | VNull => Throw TypeError
  | VObj props => Ok (lookup k props)
  | _ => Ok VUndef
  end.

(** [v?.k] *)
Definition get_opt (v : value) (k : jstring) : result value :=
  match v with
  | VUndef | VNull => Ok VUndef
  | _ => get v k
  end.

(** Leading and trailing surrogates. *)
Definition is_high (c : N) : bool := ((55296 <=? c) && (c <=? 56319))%N.
Definition is_low (c : N) : bool := ((56320 <=? c) && (c <=? 57343))%N.

(** The string as it comes back from a UTF-8 file: a surrogate outside a
    pair has become U+FFFD. *)
Fixpoint to_well_formed (s : jstring) : jstring :=
  match s with
  | [] => []
  | c :: r =>
      if is_high c then
        match r with
        | d :: r' =>
            if is_low d then c :: d :: to_well_formed r'
            else 65533%N :: to_well_formed r
        | [] => [65533%N]
        end
      else if is_low c then 65533%N :: to_well_formed r
      else c :: to_well_formed r
  end.

(** *** Decimal digits *)

Fixpoint uint_chars (d : Decimal.uint) : jstring :=
  match d with
  | Decimal.Nil => []
  | Decimal.D0 r => 48%N :: uint_chars r
  | Decimal.D1 r => 49%N :: uint_chars r
  | Decimal.D2 r => 50%N :: uint_chars r
  | Decimal.D3 r => 51%N :: uint_chars r
  | Decimal.D4 r => 52%N :: uint_chars r
  | Decimal.D5 r => 53%N :: uint_chars r
  | Decimal.D6 r => 54%N :: uint_chars r
  | Decimal.D7 r => 55%N :: uint_chars r
  | Decimal.D8 r => 56%N :: uint_chars r
  | Decimal.D9 r => 57%N :: uint_chars r
  end.

Definition digits (n : N) : jstring := uint_chars (N.to_uint n).

Fixpoint strip_zeros_rev (r : jstring) : jstring :=
  match r with
  | 48%N :: r' => strip_zeros_rev r'
  | _ => r
  end.

(** The digits without their trailing zeros. *)
Definition significant (ds : jstring) : jstring :=
  rev (strip_zeros_rev (rev ds)).

Definition zeros (n : nat) : jstring := repeat 48%N n.

(** Number::toString on the significant digits [sig] of a non-zero number
    whose decimal point stands after [n] digits (ECMA-262, 6.1.6.1.20). *)
Definition render (sig : jstring) (n : Z) : jstring :=
  let k := Z.of_nat (List.length sig) in
  if (k <=? n) && (n <=? 21) then sig ++ zeros (Z.to_nat (n - k))
  else if (0 <? n) && (n <=? 21) then
    firstn (Z.to_nat n) sig ++ lit "." ++ skipn (Z.to_nat n) sig
  else if (-6 <? n) && (n <=? 0) then
    lit "0." ++ zeros (Z.to_nat (- n)) ++ sig
  else
    let e := n - 1 in
    let es := (if e <? 0 then lit "-" else lit "+") ++ digits (Z.abs_N e) in
    match sig with
    | [] => []
    | [d] => d :: lit "e" ++ es
    | d :: ds => d :: lit "." ++ ds ++ lit "e" ++ es
    end.

Definition number_to_string (x : number) : jstring :=
  match x with
  | Int z =>
      let ds := digits (Z.abs_N z) in
      let sign := if z <? 0 then lit "-" else [] in
      if Z.abs z <? 10 ^ 21 then sign ++ ds
      else sign ++ render (significant ds) (Z.of_nat (List.length ds))
  | Dec m k =>
      if m =? 0 then lit "0"
      else
        let ds := digits (Z.abs_N m) in
        let sign := if m <? 0 then lit "-" else [] in
        sign ++ render (significant ds) (Z.of_nat (List.length ds) - Z.pos k)
  end.

(** *** Conversions *)

(** ToString.  An object parsed from JSON converts through
    [Object.prototype.toString], unless it has an own property [toString]:
    that one is not callable, and neither [valueOf] returns a primitive, so
    the conversion throws. *)
Fixpoint to_string (v : value) : result jstring :=
  match v with
  | VUndef => Ok (lit "undefined")
  | VNull => Ok (lit "null")
  | VBool true => Ok (lit "true")
  | VBool false => Ok (lit "false")
  | VNum n => Ok (number_to_string n)
  | VStr s => Ok s
  | VArr l =>
      (fix join (l : list value) (first : bool) : result jstring :=
         match l with
         | [] => Ok []
         | x :: r =>
             match (match x with
                    | VUndef | VNull => Ok []
                    | _ => to_string x
                    end) with
             | Throw e => Throw e
             | Ok s =>
                 match join r false with
                 | Throw e => Throw e
                 | Ok t => Ok ((if first then [] else lit ",") ++ s ++ t)
                 end
             end
         end) l true
  | VObj props =>
      if has_key (lit "toString") props then Throw TypeError
      else Ok (lit "[object Object]")
  end.

(** A number of the model from a decimal literal: the integer [m] scaled
    by [10^e]. *)
Fixpoint shrink (fuel : nat) (m : Z) : number :=
  match fuel with
  | O => Int m
  | S f => if m mod 10 =? 0 then shrink f (m / 10)
           else Dec m (Pos.of_succ_nat f)
  end.

Definition scaled (m e : Z) : number :=
  if 0 <=? e then Int (m * 10 ^ e) else shrink (Z.to_nat (- e)) m.

Definition is_digit (c : N) : bool := ((48 <=? c) && (c <=? 57))%N.

Definition digit_of (c : N) (r : Decimal.uint) : Decimal.uint :=
  match c with
  | 48 => Decimal.D0 r | 49 => Decimal.D1 r | 50 => Decimal.D2 r
  | 51 => Decimal.D3 r | 52 => Decimal.D4 r | 53 => Decimal.D5 r
  | 54 => Decimal.D6 r | 55 => Decimal.D7 r | 56 => Decimal.D8 r
  | _ => Decimal.D9 r
  end%N.

(** The longest prefix of decimal digits, and what follows it. *)
Fixpoint take_digits (s : jstring) : Decimal.uint * jstring :=
  match s with
  | c :: r =>
      if is_digit c then
        let (d, rest) := take_digits r in (digit_of c d, rest)
      else (Decimal.Nil, s)
  | [] => (Decimal.Nil, [])
  end.

(** [e] or [E], an optional sign and digits: the exponent and the rest;
    [None] when an exponent starts and has no digits. *)
Definition take_exponent (s : jstring) : option (Z * jstring) :=
  match s with
  | c :: r =>
      if ((c =? 101) || (c =? 69))%N then
        let (neg, r1) :=
          match r with
          | s' :: r' =>
              if (s' =? 45)%N then (true, r')
              else if (s' =? 43)%N then (false, r')
              else (false, r)
          | [] => (false, r)
          end in
        match take_digits r1 with
        | (Decimal.Nil, _) => None
        | (d, rest) =>
            let e := Z.of_N (N.of_uint d) in
            Some (if neg then - e else e, rest)
        end
      else Some (0, s)
  | [] => Some (0, [])
  end.

(** The value of [int.frac] times [10^e], negated when [neg]. *)
Definition decimal_value (neg : bool) (int frac : Decimal.uint) (e : Z)
  : number :=
  let m := Z.of_N (N.of_uint (Decimal.app int frac)) in
  scaled (if neg then - m else m) (e - Z.of_nat (Decimal.nb_digits frac)).

Inductive extnum :=
| NaN
| PosInf
| NegInf
| Fin (n : number).

(** StrWhiteSpaceChar: white space and line terminators. *)
Definition is_str_space (c : N) : bool :=
  ((c =? 9) || (c =? 10) || (c =? 11) || (c =? 12) || (c =? 13) || (c =? 32)
   || (c =? 160) || (c =? 5760) || ((8192 <=? c) && (c <=? 8202))
   || (c =? 8232) || (c =? 8233) || (c =? 8239) || (c =? 8287)
   || (c =? 12288) || (c =? 65279))%N.

Fixpoint trim_left (s : jstring) : jstring :=
  match s with
  | c :: r => if is_str_space c then trim_left r else s
  | [] => []
  end.

Definition trim (s : jstring) : jstring :=
  rev (trim_left (rev (trim_left s))).

(** The digits of a literal in base 2, 8 or 16. *)
Definition radix_digit (base c : N) : option N :=
  let d := (if (48 <=? c) && (c <=? 57) then c - 48
            else if (97 <=? c) && (c <=? 102) then c - 87
            else if (65 <=? c) && (c <=? 70) then c - 55
            else 16)%N in
  if (d <? base)%N then Some d else None.

Fixpoint radix_value (base : N) (acc : N) (s : jstring) : option N :=
  match s with
  | [] => Some acc
  | c :: r =>
      match radix_digit base c with
      | Some d => radix_value base (acc * base + d)%N r
      | None => None
      end
  end.

(** StrUnsignedDecimalLiteral, all of [s]. *)
Definition unsigned_decimal (neg : bool) (s : jstring) : extnum :=
  if jstring_eqb s (lit "Infinity") then (if neg then NegInf else PosInf)
  else
    let (int, r) := take_digits s in
    let (frac, r1) :=
      match r with
      | c :: r' => if (c =? 46)%N then take_digits r' else (Decimal.Nil, r)
      | [] => (Decimal.Nil, r)
      end in
    match int, frac with
    | Decimal.Nil, Decimal.Nil => NaN
    | _, _ =>
        match take_exponent r1 with
        | Some (e, []) => Fin (decimal_value neg int frac e)
        | _ => NaN
        end
    end.

(** StringToNumber (ECMA-262, 7.1.4.1.1). *)
Definition string_to_number (s : jstring) : extnum :=
  match trim s with
  | [] => Fin (Int 0)
  | c0 :: r0 =>
      let base :=
        match r0 with
        | c :: _ :: _ =>
            (if negb (c0 =? 48) then 0
             else if (c =? 120) || (c =? 88) then 16
             else if (c =? 111) || (c =? 79) then 8
             else if (c =? 98) || (c =? 66) then 2 else 0)%N
        | _ => 0%N
        end in
      if negb (base =? 0)%N then
        match radix_value base 0 (tl r0) with
        | Some n => Fin (Int (Z.of_N n))
        | None => NaN
        end
      else if (c0 =? 45)%N then unsigned_decimal true r0
      else if (c0 =? 43)%N then unsigned_decimal false r0
      else unsigned_decimal false (c0 :: r0)
  end.

(** ToNumber. *)
Definition to_number (v : value) : result extnum :=
  match v with
  | VUndef => Ok NaN
  | VNull => Ok (Fin (Int 0))
  | VBool b => Ok (Fin (Int (if b then 1 else 0)))
  | VNum n => Ok (Fin n)
  | VStr s => Ok (string_to_number s)
  | VArr _ | VObj _ =>
      match to_string v with
      | Ok s => Ok (string_to_number s)
      | Throw e => Throw e
      end
  end.

(** [n <= t] for a number of the model and an integer. *)
Definition num_leb (n : number) (t : Z) : bool :=
  match n with
  | Int z => z <=? t
  | Dec m k => m <=? t * 10 ^ Z.pos k
  end.

(** [t >= v] for the integer [t]: false when [v] converts to NaN. *)
Definition ge (t : Z) (v : value) : result bool :=
  match to_number v with
  | Throw e => Throw e
  | Ok NaN => Ok false
  | Ok PosInf => Ok false
  | Ok NegInf => Ok true
  | Ok (Fin n) => Ok (num_leb n t)
  end.

End JS.

(** ** JSON: [JSON.stringify(v, null, 2)] and [JSON.parse] *)

Module JSON.
Import JS.

Definition hex_char (d : N) : N := (if d <? 10 then 48 + d else 87 + d)%N.

(** [\uXXXX], in lower-case hexadecimal. *)
Definition uescape (c : N) : jstring :=
  [92; 117; hex_char (c / 4096); hex_char ((c / 256) mod 16);
   hex_char ((c / 16) mod 16); hex_char (c mod 16)]%N.

(** One code unit that is not a surrogate, as QuoteJSONString writes it. *)
Definition escape (c : N) : jstring :=
  (if c =? 8 then lit "\b"
   else if c =? 9 then lit "\t"
   else if c =? 10 then lit "\n"
   else if c =? 12 then lit "\f"
   else if c =? 13 then lit "\r"
   else if c =? 34 then [92; 34]
   else if c =? 92 then [92; 92]
   else if c <? 32 then uescape c
   else [c])%N.

(** A surrogate pair is copied; a surrogate outside a pair is escaped. *)
Fixpoint quote_body (s : jstring) : jstring :=
  match s with
  | [] => []
  | c :: r =>
      if is_high c then
        match r with
        | d :: r' =>
            if is_low d then c :: d :: quote_body r'
            else uescape c ++ quote_body r
        | [] => uescape c
        end
      else if is_low c then uescape c ++ quote_body r
      else escape c ++ quote_body r
  end.

Definition quote (s : jstring) : jstring :=
  34%N :: quote_body s ++ [34%N].

Definition gap : jstring := lit "  ".
Definition newline : jstring := [10%N].

Fixpoint join (sep : jstring) (l : list jstring) : jstring :=
  match l with
  | [] => []
  | [x] => x
  | x :: r => x ++ sep ++ join sep r
  end.

(** SerializeJSONProperty at indentation [indent]; [None] is undefined. *)
Fixpoint serialize (indent : jstring) (v : value) : option jstring :=
  match v with
  | VUndef => None
  | VNull => Some (lit "null")
  | VBool true => Some (lit "true")
  | VBool false => Some (lit "false")
  | VNum n => Some (number_to_string n)
  | VStr s => Some (quote s)
  | VArr l =>
      let inner := indent ++ gap in
      let items :=
        (fix items (l : list value) : list jstring :=
           match l with
           | [] => []
           | x :: r =>
               match serialize inner x with
               | Some t => t
               | None => lit "null"
               end :: items r
           end) l in
      match items with
      | [] => Some (lit "[]")
      | _ => Some (lit "[" ++ newline ++ inner
                   ++ join (lit "," ++ newline ++ inner) items
                   ++ newline ++ indent ++ lit "]")
      end
  | VObj props =>
      let inner := indent ++ gap in
      let members :=
        (fix members (l : list (jstring * value)) : list jstring :=
           match l with
           | [] => []
           | (k, x) :: r =>
               match serialize inner x with
               | Some t => (quote k ++ lit ": " ++ t) :: members r
               | None => members r
               end
           end) props in
      match members with
      | [] => Some (lit "{}")
      | _ => Some (lit "{" ++ newline ++ inner
                   ++ join (lit "," ++ newline ++ inner) members
                   ++ newline ++ indent ++ lit "}")
      end
  end.

(** [JSON.stringify(v, null, 2)] *)
Definition stringify (v : value) : option jstring := serialize [] v.

(** *** Parsing *)

Definition is_ws (c : N) : bool :=
  ((c =? 9) || (c =? 10) || (c =? 13) || (c =? 32))%N.

Fixpoint skip_ws (s : jstring) : jstring :=
  match s with
  | c :: r => if is_ws c then skip_ws r else s
  | [] => []
  end.

Definition hex_digit (c : N) : option N := radix_digit 16 c.

Definition hex4 (a b c d : N) : option N :=
  match hex_digit a, hex_digit b, hex_digit c, hex_digit d with
  | Some x, Some y, Some z, Some w => Some (((x * 16 + y) * 16 + z) * 16 + w)%N
  | _, _, _, _ => None
  end.

Definition unescape (e : N) : option N :=
  (if e =? 34 then Some 34
   else if e =? 92 then Some 92
   else if e =? 47 then Some 47
   else if e =? 98 then Some 8
   else if e =? 102 then Some 12
   else if e =? 110 then Some 10
   else if e =? 114 then Some 13
   else if e =? 116 then Some 9
   else None)%N.

Definition cons_fst (c : N) (x : option (jstring * jstring))
  : option (jstring * jstring) :=
  match x with
  | Some (s, rest) => Some (c :: s, rest)
  | None => None
  end.

(** The characters of a string literal after its opening quote, up to the
    closing one, and what follows. *)
Fixpoint string_body (s : jstring) : option (jstring * jstring) :=
  match s with
  | [] => None
  | c :: r =>
      if (c =? 34)%N then Some ([], r)
      else if (c =? 92)%N then
        match r with
        | [] => None
        | e :: r1 =>
            if (e =? 117)%N then
              match r1 with
              | h1 :: h2 :: h3 :: h4 :: r2 =>
                  match hex4 h1 h2 h3 h4 with
                  | Some u => cons_fst u (string_body r2)
                  | None => None
                  end
              | _ => None
              end
            else
              match unescape e with
              | Some x => cons_fst x (string_body r1)
              | None => None
              end
        end
      else if (c <? 32)%N then None
      else cons_fst c (string_body r)
  end.

(** The digits of a number after its sign: int frac? exp?, with no
    leading zero in [int]. *)
Definition unsigned_number (neg : bool) (s : jstring)
  : option (number * jstring) :=
  match take_digits s with
  | (Decimal.Nil, _) => None
  | (Decimal.D0 (Decimal.D0 _ | Decimal.D1 _ | Decimal.D2 _ | Decimal.D3 _
                 | Decimal.D4 _ | Decimal.D5 _ | Decimal.D6 _ | Decimal.D7 _
                 | Decimal.D8 _ | Decimal.D9 _), _) => None
  | (int, r1) =>
      let frac :=
        match r1 with
        | c :: r2 =>
            if (c =? 46)%N then
              match take_digits r2 with
              | (Decimal.Nil, _) => None
              | (f, r3) => Some (f, r3)
              end
            else Some (Decimal.Nil, r1)
        | [] => Some (Decimal.Nil, r1)
        end in
      match frac with
      | None => None
      | Some (f, r3) =>
          match take_exponent r3 with
          | None => None
          | Some (e, r4) => Some (decimal_value neg int f e, r4)
          end
      end
  end.

Definition parse_number (s : jstring) : option (number * jstring) :=
  match s with
  | c :: r => if (c =? 45)%N then unsigned_number true r
              else unsigned_number false s
  | [] => unsigned_number false s
  end.

(** Array indices come first among the keys of an object, in ascending
    order; the other keys follow in the order of their creation. *)
Definition array_index (k : jstring) : option N :=
  match take_digits k with
  | (Decimal.Nil, _) => None
  | (d, []) =>
      let n := N.of_uint d in
      if jstring_eqb (digits n) k && (n <? 4294967295)%N then Some n
      else None
  | (_, _ :: _) => None
  end.

Fixpoint replace (k : jstring) (v : value) (props : list (jstring * value))
  : list (jstring * value) :=
  match props with
  | [] => []
  | (k', v') :: r =>
      if jstring_eqb k k' then (k', v) :: r else (k', v') :: replace k v r
  end.

Fixpoint insert_index (i : N) (k : jstring) (v : value)
  (props : list (jstring * value)) : list (jstring * value) :=
  match props with
  | [] => [(k, v)]
  | (k', v') :: r =>
      match array_index k' with
      | Some j => if (j <? i)%N then (k', v') :: insert_index i k v r
                  else (k, v) :: props
      | None => (k, v) :: props
      end
  end.

(** CreateDataProperty on an ordinary object. *)
Definition define (k : jstring) (v : value) (props : list (jstring * value))
  : list (jstring * value) :=
  if has_key k props then replace k v props
  else match array_index k with
       | Some i => insert_index i k v props
       | None => props ++ [(k, v)]
       end.

Definition expect (word : jstring) (v : value) (s : jstring)
  : option (value * jstring) :=
  if jstring_eqb (firstn (List.length word) s) word
  then Some (v, skipn (List.length word) s)
  else None.

Fixpoint parse_value (fuel : nat) (s : jstring) : option (value * jstring) :=
  match fuel with
  | O => None
  | S f =>
      match skip_ws s with
      | [] => None
      | c :: r =>
          if (c =? 123)%N then
            match skip_ws r with
            | c' :: r' => if (c' =? 125)%N then Some (VObj [], r')
                          else parse_members f [] (c' :: r')
            | [] => parse_members f [] []
            end
          else if (c =? 91)%N then
            match skip_ws r with
            | c' :: r' => if (c' =? 93)%N then Some (VArr [], r')
                          else parse_elements f [] (c' :: r')
            | [] => parse_elements f [] []
            end
          else if (c =? 34)%N then
            match string_body r with
            | Some (t, r') => Some (VStr t, r')
            | None => None
            end
          else if (c =? 110)%N then expect (lit "null") VNull (c :: r)
          else if (c =? 116)%N then expect (lit "true") (VBool true) (c :: r)
          else if (c =? 102)%N then expect (lit "false") (VBool false) (c :: r)
          else
            match parse_number (c :: r) with
            | Some (n, r') => Some (VNum n, r')
            | None => None
            end
      end
  end
with parse_elements (fuel : nat) (acc : list value) (s : jstring)
  : option (value * jstring) :=
  match fuel with
  | O => None
  | S f =>
      match parse_value f s with
      | None => None
      | Some (v, r) =>
          match skip_ws r with
          | c :: r' =>
              if (c =? 44)%N then parse_elements f (v :: acc) r'
              else if (c =? 93)%N then Some (VArr (rev (v :: acc)), r')
              else None
          | [] => None
          end
      end
  end
with parse_members (fuel : nat) (props : list (jstring * value)) (s : jstring)
  : option (value * jstring) :=
  match fuel with
  | O => None
  | S f =>
      match skip_ws s with
      | q :: r =>
          if (q =? 34)%N then
            match string_body r with
            | None => None
            | Some (k, r1) =>
                match skip_ws r1 with
                | c :: r2 =>
                    if (c =? 58)%N then
                      match parse_value f r2 with
                      | None => None
                      | Some (v, r3) =>
                          match skip_ws r3 with
                          | d :: r4 =>
                              if (d =? 44)%N
                              then parse_members f (define k v props) r4
                              else if (d =? 125)%N
                              then Some (VObj (define k v props), r4)
                              else None
                          | [] => None
                          end
                      end
                    else None
                | [] => None
                end
            end
          else None
      | [] => None
      end
  end.

(** [JSON.parse(text)]: one value, then nothing but white space.  The fuel
    exceeds what any text of this length can use. *)
Definition parse (text : jstring) : result value :=
  match parse_value (2 * List.length text + 1) text with
  | Some (v, rest) =>
      match skip_ws rest with
      | [] => Ok v
      | _ => Throw SyntaxError
      end
  | None => Throw SyntaxError
  end.

End JSON.

(** ** [URLSearchParams.prototype.toString] *)

Module Url.
Import JS.

(** The code points of a string; a surrogate outside a pair reads as
    U+FFFD. *)
Fixpoint code_points (s : jstring) : list N :=
  match s with
  | [] => []
  | c :: r =>
      if is_high c then
        match r with
        | d :: r' =>
            if is_low d
            then (65536 + (c - 55296) * 1024 + (d - 56320))%N :: code_points r'
            else 65533%N :: code_points r
        | [] => [65533%N]
        end
      else if is_low c then 65533%N :: code_points r
      else c :: code_points r
  end.

Definition utf8 (p : N) : list N :=
  (if p <? 128 then [p]
   else if p <? 2048 then [192 + p / 64; 128 + p mod 64]
   else if p <? 65536 then
     [224 + p / 4096; 128 + (p / 64) mod 64; 128 + p mod 64]
   else [240 + p / 262144; 128 + (p / 4096) mod 64;
         128 + (p / 64) mod 64; 128 + p mod 64])%N.

Definition upper_hex (d : N) : N := (if d <? 10 then 48 + d else 55 + d)%N.

(** One byte in application/x-www-form-urlencoded: letters, digits and
    [* - . _] stay, a space becomes [+], the rest is percent-encoded. *)
Definition form_byte (b : N) : jstring :=
  (if b =? 32 then [43]
   else if ((48 <=? b) && (b <=? 57)) || ((65 <=? b) && (b <=? 90))
           || ((97 <=? b) && (b <=? 122))
           || (b =? 42) || (b =? 45) || (b =? 46) || (b =? 95)
   then [b]
   else [37; upper_hex (b / 16); upper_hex (b mod 16)])%N.

Definition form_encode (s : jstring) : jstring :=
  flat_map form_byte (flat_map utf8 (code_points s)).

Fixpoint search_params (entries : list (jstring * jstring)) : jstring :=
  match entries with
  | [] => []
  | [(k, v)] => form_encode k ++ lit "=" ++ form_encode v
  | (k, v) :: rest =>
      form_encode k ++ lit "=" ++ form_encode v ++ lit "&" ++ search_params rest
  end.

End Url.

(** ** The world of the manager: one file, one clock, the token endpoint *)

Module World.
Import JS.

(** A request handed to [fetch]: always a POST of a form-encoded body. *)
Record request := { url : jstring; body : jstring }.

(** interface TokenResponse; [refresh_token] is [None] when the server
    left it out. *)
Record TokenResponse := {
  access_token : jstring;
  refresh_token : option jstring;
  expires_in : Z;
  token_type : jstring
}.

(** The body of a response: lost on the way, or its text together with
    what [response.json()] makes of it ([None]: not JSON). *)
Inductive payload :=
| Lost
| Body (text : jstring) (data : option TokenResponse).

Inductive fetch_outcome :=
| NoResponse                                   (* the promise rejects *)
| Response (status : Z) (content : payload).

(** What the network does with a request, and the milliseconds that pass
    until the manager has it. *)
Record reply := { took : Z; outcome : fetch_outcome }.

Definition network := request -> reply.

Record world := {
  now : Z;                       (* Date.now() *)
  file : option jstring;         (* tokens.json: absent, or its text *)
  sent : list request            (* the requests issued, latest first *)
}.

Definition ok (status : Z) : bool := (200 <=? status) && (status <=? 299).

End World.

(** ** The manager *)

Module OAuthManager.
Import JS World.

Definition AUTH_URL : jstring := lit "https://api.sharesight.com/oauth2/authorize".
Definition TOKEN_URL : jstring := lit "https://api.sharesight.com/oauth2/token".
Definition REDIRECT_URI : jstring := lit "urn:ietf:wg:oauth:2.0:oob".

(** The fields of the object; [tokens] holds a StoredTokens object or
    null by its declared type, and whatever [JSON.parse] returned in
    fact. *)
Record manager := {
  clientId : jstring;
  clientSecret : jstring;
  tokens : value
}.

Record state := { self : manager; env : world }.

(** Computations that read and write the state and may throw; what was
    written before a throw stays written. *)
Definition M (A : Type) : Type := state -> result A * state.

Definition ret {A} (a : A) : M A := fun st => (Ok a, st).

Definition throw {A} (e : thrown) : M A := fun st => (Throw e, st).

Definition bind {A B} (c : M A) (k : A -> M B) : M B :=
  fun st =>
    match c st with
    | (Ok a, st') => k a st'
    | (Throw e, st') => (Throw e, st')
    end.

Definition try_catch {A} (c : M A) (handler : M A) : M A :=
  fun st =>
    match c st with
    | (Ok a, st') => (Ok a, st')
    | (Throw _, st') => handler st'
    end.

Definition lift {A} (r : result A) : M A := fun st => (r, st).

Notation "x <- c ;; k" := (bind c (fun x => k))
  (at level 61, c at next level, right associativity).
Notation "c ;;; k" := (bind c (fun _ => k))
  (at level 61, right associativity).

Definition this_tokens : M value := fun st => (Ok (tokens (self st)), st).

Definition set_tokens (v : value) : M unit :=
  fun st =>
    (Ok tt, {| self := {| clientId := clientId (self st);
                          clientSecret := clientSecret (self st);
                          tokens := v |};
               env := env st |}).

Definition Date_now : M Z := fun st => (Ok (now (env st)), st).

Definition set_file (f : option jstring) : M unit :=
  fun st =>
    (Ok tt, {| self := self st;
               env := {| now := now (env st); file := f;
                         sent := sent (env st) |} |}).

(** [fs.existsSync(this.tokensPath)] *)
Definition existsSync : M bool :=
  fun st => (Ok (match file (env st) with Some _ => true | None => false end), st).

(** [fs.readFileSync(this.tokensPath, "utf-8")] *)
Definition readFileSync : M jstring :=
  fun st =>
    match file (env st) with
    | Some text => (Ok text, st)
    | None => (Throw FsError, st)
    end.

(** [fs.writeFileSync(this.tokensPath, data)]: [data] must be a string. *)
Definition writeFileSync (data : option jstring) : M unit :=
  match data with
  | Some s => set_file (Some (to_well_formed s))
  | None => throw TypeError
  end.

(** [fs.rmSync(this.tokensPath, { force: true })] *)
Definition rmSync : M unit := set_file None.

(** [await fetch(TOKEN_URL, { method: "POST", headers, body })] *)
Definition fetch (net : network) (req : request) : M (Z * payload) :=
  fun st =>
    let r := net req in
    let st' := {| self := self st;
                  env := {| now := now (env st) + took r;
                            file := file (env st);
                            sent := req :: sent (env st) |} |} in
    match outcome r with
    | NoResponse => (Throw FetchFailed, st')
    | Response status content => (Ok (status, content), st')
    end.

(** [await response.text()] *)
Definition response_text (content : payload) : M jstring :=
  match content with
  | Lost => throw BodyFailed
  | Body text _ => ret text
  end.

(** [(await response.json()) as TokenResponse] *)
Definition response_json (content : payload) : M TokenResponse :=
  match content with
  | Lost => throw BodyFailed
  | Body _ None => throw SyntaxError
  | Body _ (Some data) => ret data
  end.

(** The object literal of a StoredTokens. *)
Definition stored (access refresh : value) (expires_at : Z) (type : value)
  : value :=
  VObj [(lit "access_token", access);
        (lit "refresh_token", refresh);
        (lit "expires_at", VNum (Int expires_at));
        (lit "token_type", type)].

Definition loadTokens : M unit :=
  try_catch
    (present <- existsSync ;;
     if present then
       data <- readFileSync ;;
       v <- lift (JSON.parse data) ;;
       set_tokens v
     else ret tt)
    (set_tokens VNull).

Definition saveTokens : M unit :=
  t <- this_tokens ;;
  if truthy t then writeFileSync (JSON.stringify t) else ret tt.

(** [new OAuthManager({ clientId, clientSecret })], given the world it
    starts in. *)
Definition construct (clientId clientSecret : jstring) (w : world)
  : result unit * state :=
  loadTokens {| self := {| clientId := clientId;
                           clientSecret := clientSecret;
                           tokens := VNull |};
                env := w |}.

Definition getAuthorizationUrl : M jstring :=
  fun st =>
    let params := Url.search_params
                    [(lit "response_type", lit "code");
                     (lit "client_id", clientId (self st));
                     (lit "redirect_uri", REDIRECT_URI)] in
    (Ok (AUTH_URL ++ lit "?" ++ params), st).

Definition this_clientId : M jstring := fun st => (Ok (clientId (self st)), st).
Definition this_clientSecret : M jstring :=
  fun st => (Ok (clientSecret (self st)), st).

(** [expires_at] is computed on integers; the doubles of the code give
    the same as long as no operand or result exceeds 2^53 in magnitude. *)
Definition exchangeCodeForTokens (net : network) (code : jstring) : M unit :=
  id <- this_clientId ;;
  secret <- this_clientSecret ;;
  let body := Url.search_params
                [(lit "grant_type", lit "authorization_code");
                 (lit "code", code);
                 (lit "redirect_uri", REDIRECT_URI);
                 (lit "client_id", id);
                 (lit "client_secret", secret)] in
  response <- fetch net {| url := TOKEN_URL; body := body |} ;;
  let (status, content) := response in
  if negb (ok status) then
    errorText <- response_text content ;;
    throw (Error (lit "Token exchange failed ("
                  ++ number_to_string (Int status) ++ lit "): " ++ errorText))
  else
    data <- response_json content ;;
    t <- Date_now ;;
    set_tokens
      (stored (VStr (access_token data))
              (match refresh_token data with
               | Some r => VStr r
               | None => VUndef
               end)
              (t + expires_in data * 1000 - 60000)
              (VStr (token_type data))) ;;;
    saveTokens.

(** [expires_at] is computed as in [exchangeCodeForTokens]. *)
Definition refreshTokens (net : network) : M unit :=
  t0 <- this_tokens ;;
  guard <- lift (get_opt t0 (lit "refresh_token")) ;;
  if negb (truthy guard) then
    throw (Error (lit "No refresh token available"))
  else
    old <- lift (get t0 (lit "refresh_token")) ;;
    old_text <- lift (to_string old) ;;
    id <- this_clientId ;;
    secret <- this_clientSecret ;;
    let body := Url.search_params
                  [(lit "grant_type", lit "refresh_token");
                   (lit "refresh_token", old_text);
                   (lit "client_id", id);
                   (lit "client_secret", secret)] in
    response <- fetch net {| url := TOKEN_URL; body := body |} ;;
    let (status, content) := response in
    if negb (ok status) then
      errorText <- response_text content ;;
      set_tokens VNull ;;;
      rmSync ;;;
      throw (Error (lit "Token refresh failed ("
                    ++ number_to_string (Int status) ++ lit "): " ++ errorText
                    ++ lit ". Please re-authorize."))
    else
      data <- response_json content ;;
      refresh <- match refresh_token data with
                 | Some (c :: r) => ret (VStr (c :: r))
                 | Some [] | None =>
                     t1 <- this_tokens ;;
                     lift (get t1 (lit "refresh_token"))
                 end ;;
      t <- Date_now ;;
      set_tokens
        (stored (VStr (access_token data))
                refresh
                (t + expires_in data * 1000 - 60000)
                (VStr (token_type data))) ;;;
      saveTokens.

Definition hasValidTokens : M bool :=
  t <- this_tokens ;;
  ret (match t with VNull => false | _ => true end).

Definition isTokenExpired : M bool :=
  t <- this_tokens ;;
  if negb (truthy t) then ret true
  else
    t_now <- Date_now ;;
    expires_at <- lift (get t (lit "expires_at")) ;;
    lift (ge t_now expires_at).

Definition getValidAccessToken (net : network) : M value :=
  t <- this_tokens ;;
  if negb (truthy t) then
    throw (Error (lit "Not authorized. Please run authorization flow first."))
  else
    expired <- isTokenExpired ;;
    (if expired then refreshTokens net else ret tt) ;;;
    t' <- this_tokens ;;
    lift (get t' (lit "access_token")).

(** [runAuthorizationFlow()], given the line the operator types at the
    prompt. *)
Definition runAuthorizationFlow (net : network) (answer : jstring) : M unit :=
  _ <- getAuthorizationUrl ;;
  exchangeCodeForTokens net (trim answer).

End OAuthManager.

(** * The scenarios of the properties *)

Module Scenario.
Import JS World OAuthManager.

(** The request of an authorization-code exchange and of a refresh. *)
Definition exchange_request (m : manager) (code : jstring) : request :=
  {| url := TOKEN_URL;
     body := Url.search_params
               [(lit "grant_type", lit "authorization_code");
                (lit "code", code);
                (lit "redirect_uri", REDIRECT_URI);
                (lit "client_id", clientId m);
                (lit "client_secret", clientSecret m)] |}.

Definition refresh_request (m : manager) (refresh_text : jstring) : request :=
  {| url := TOKEN_URL;
     body := Url.search_params
               [(lit "grant_type", lit "refresh_token");
                (lit "refresh_token", refresh_text);
                (lit "client_id", clientId m);
                (lit "client_secret", clientSecret m)] |}.

(** The state once [req] has been answered by [net]. *)
Definition answered (net : network) (req : request) (st : state) : state :=
  {| self := self st;
     env := {| now := now (env st) + took (net req);
               file := file (env st);
               sent := req :: sent (env st) |} |}.

Definition with_tokens (v : value) (st : state) : state :=
  {| self := {| clientId := clientId (self st);
                clientSecret := clientSecret (self st);
                tokens := v |};
     env := env st |}.

Definition with_file (f : option jstring) (st : state) : state :=
  {| self := self st;
     env := {| now := now (env st); file := f; sent := sent (env st) |} |}.

Definition NOT_AUTHORIZED : thrown :=
  Error (lit "Not authorized. Please run authorization flow first.").

Definition NO_REFRESH_TOKEN : thrown :=
  Error (lit "No refresh token available").

Definition EXCHANGE_FAILED (status : Z) (text : jstring) : thrown :=
  Error (lit "Token exchange failed (" ++ number_to_string (Int status)
         ++ lit "): " ++ text).

Definition REFRESH_FAILED (status : Z) (text : jstring) : thrown :=
  Error (lit "Token refresh failed (" ++ number_to_string (Int status)
         ++ lit "): " ++ text ++ lit ". Please re-authorize.").

(** [this.tokens?.refresh_token] *)
Definition stored_refresh_token (t : value) : value :=
  match t with
  | VObj props => lookup (lit "refresh_token") props
  | _ => VUndef
  end.

(** What can happen to a manager over its life: calls of its public
    methods, the passing of time, and a restart of the process, which
    constructs a new manager over the same file. *)
Inductive call :=
| Construct (id secret : jstring)
| GetAuthorizationUrl
| ExchangeCodeForTokens (net : network) (code : jstring)
| RefreshTokens (net : network)
| HasValidTokens
| IsTokenExpired
| GetValidAccessToken (net : network)
| RunAuthorizationFlow (net : network) (answer : jstring)
| Wait (ms : Z).

Definition elapse (ms : Z) : M unit :=
  fun st =>
    (Ok tt, {| self := self st;
               env := {| now := now (env st) + ms; file := file (env st);
                         sent := sent (env st) |} |}).

Definition perform (c : call) : M unit :=
  match c with
  | Construct id secret => fun st => construct id secret (env st)
  | GetAuthorizationUrl => _ <- getAuthorizationUrl ;; ret tt
  | ExchangeCodeForTokens net code => exchangeCodeForTokens net code
  | RefreshTokens net => refreshTokens net
  | HasValidTokens => _ <- hasValidTokens ;; ret tt
  | IsTokenExpired => _ <- isTokenExpired ;; ret tt
  | GetValidAccessToken net => _ <- getValidAccessToken net ;; ret tt
  | RunAuthorizationFlow net answer => runAuthorizationFlow net answer
  | Wait ms => elapse ms
  end.

Fixpoint run (calls : list call) (st : state) : state :=
  match calls with
  | [] => st
  | c :: rest => run rest (snd (perform c st))
  end.

(** The call is an authorization and it succeeds. *)
Definition authorizes (c : call) (st : state) : bool :=
  match c with
  | ExchangeCodeForTokens _ _ | RunAuthorizationFlow _ _ =>
      match fst (perform c st) with
      | Ok _ => true
      | Throw _ => false
      end
  | _ => false
  end.

(** No authorization succeeds along the calls. *)
Fixpoint no_authorization (calls : list call) (st : state) : bool :=
  match calls with
  | [] => true
  | c :: rest =>
      negb (authorizes c st) && no_authorization rest (snd (perform c st))
  end.

(** The integers on which the arithmetic of doubles is the arithmetic of
    integers: those of magnitude at most 2^53, each of them a double. *)
Definition safe (z : Z) : Prop := Z.abs z <= 2 ^ 53.

(** The record is destroyed: none in memory, none on file. *)
Definition destroyed (st : state) : Prop :=
  tokens (self st) = VNull /\ file (env st) = None.

(** No response arrives: the request fails, or the connection is lost
    before the body has been read. *)
Definition no_response (o : fetch_outcome) : Prop :=
  match o with
  | NoResponse => True
  | Response _ Lost => True
  | Response _ (Body _ _) => False
  end.

(** The errors by which the manager reports a rejection by the server. *)
Definition is_rejection (r : result unit) : Prop :=
  exists status text,
    r = Throw (EXCHANGE_FAILED status text) \/
    r = Throw (REFRESH_FAILED status text).

(** The state once the record in memory has been written to the file. *)
Definition saved (st : state) : state :=
  match JSON.stringify (tokens (self st)) with
  | Some text => with_file (Some (to_well_formed text)) st
  | None => st
  end.

(** The text [JSON.stringify(record, null, 2)] writes for a record of
    three strings and an integer. *)
Definition stored_text (access refresh : jstring) (expires_at : Z)
  (type : jstring) : jstring :=
  123%N :: 10%N :: 32%N :: 32%N ::
    JSON.quote (lit "access_token") ++ 58%N :: 32%N :: JSON.quote access ++
  44%N :: 10%N :: 32%N :: 32%N ::
    JSON.quote (lit "refresh_token") ++ 58%N :: 32%N :: JSON.quote refresh ++
  44%N :: 10%N :: 32%N :: 32%N ::
    JSON.quote (lit "expires_at") ++ 58%N :: 32%N ::
    number_to_string (Int expires_at) ++
  44%N :: 10%N :: 32%N :: 32%N ::
    JSON.quote (lit "token_type") ++ 58%N :: 32%N :: JSON.quote type ++
  [10%N; 125%N].

(** ** Concrete managers, worlds and servers *)

Definition manager_with (t : value) : manager :=
  {| clientId := lit "my-client"; clientSecret := lit "s3cret"; tokens := t |}.

Definition at_time (clock : Z) (f : option jstring) : world :=
  {| now := clock; file := f; sent := [] |}.

(** A network that answers every request the same way, at once. *)
Definition always (o : fetch_outcome) : network :=
  fun _ => {| took := 0; outcome := o |}.

(** The record of the specification's scenario: A1, R1, issued at 0 for
    3600 seconds. *)
Definition record_A1 : value :=
  stored (VStr (lit "A1")) (VStr (lit "R1")) 3540000 (VStr (lit "Bearer")).

Definition fields_A1 : list (jstring * value) :=
  [(lit "access_token", VStr (lit "A1"));
   (lit "refresh_token", VStr (lit "R1"));
   (lit "expires_at", VNum (Int 3540000));
   (lit "token_type", VStr (lit "Bearer"))].

Definition grant (access : jstring) (refresh : option jstring) : TokenResponse :=
  {| access_token := access; refresh_token := refresh;
     expires_in := 3600; token_type := lit "Bearer" |}.

Definition granted (access : jstring) (refresh : option jstring) : network :=
  always (Response 200 (Body [] (Some (grant access refresh)))).

Definition rejected (status : Z) : network :=
  always (Response status (Body (lit "invalid_grant") None)).

Definition unreachable : network := always NoResponse.

(** A server that answers with [status] over a connection lost before
    the body has been read. *)
Definition cut_off (status : Z) : network := always (Response status Lost).

(** A manager holding A1/R1 at the instant 3600000, when it has expired. *)
Definition expired_A1 : state :=
  {| self := manager_with record_A1; env := at_time 3600000 None |}.

(** The same manager at the instant 1000, before its expiry. *)
Definition fresh_A1 : state :=
  {| self := manager_with record_A1; env := at_time 1000 None |}.

Definition unauthorized : state :=
  {| self := manager_with VNull; env := at_time 0 None |}.

(** A record whose refresh token is the empty string. *)
Definition record_without_refresh : value :=
  stored (VStr (lit "A1")) (VStr []) 3540000 (VStr (lit "Bearer")).

Definition expired_without_refresh : state :=
  {| self := manager_with record_without_refresh;
     env := at_time 3600000 None |}.

(** A manager holding A1/R1, expired, with its record on file. *)
Definition expired_A1_on_file : state :=
  {| self := manager_with record_A1;
     env := at_time 3600000 (JSON.stringify record_A1) |}.

(** A file holding [{"access_token":"a"}]: valid JSON, three of the four
    fields missing. *)
Definition partial_file : jstring :=
  lit "{" ++ JSON.quote (lit "access_token") ++ lit ":"
  ++ JSON.quote (lit "a") ++ lit "}".

(** The first forty characters of the file of A1/R1: a write cut short. *)
Definition truncated_file : jstring :=
  firstn 40 (stored_text (lit "A1") (lit "R1") 3540000 (lit "Bearer")).

Definition garbage_file : jstring := lit "not json".

End Scenario.

(** * The callers of the manager *)

(** ** [process.env] *)

Module Process.
Import JS.

(** A variable is unset or holds a string. *)
Record environment := {
  SHARESIGHT_ACCESS_TOKEN : option jstring;
  SHARESIGHT_CLIENT_ID : option jstring;
  SHARESIGHT_CLIENT_SECRET : option jstring
}.

(** ToBoolean of a string. *)
Definition nonempty (s : jstring) : bool :=
  match s with
  | [] => false
  | _ :: _ => true
  end.

(** ToBoolean of a variable: set, and not to the empty string. *)
Definition given (v : option jstring) : bool :=
  match v with
  | Some s => nonempty s
  | None => false
  end.

End Process.

(** ** The server's start (src/index.ts) *)

Module Server.
Import JS World OAuthManager Process.

(** type TokenProvider: a fixed access token, or a manager. *)
Inductive TokenProvider :=
| Token (accessToken : jstring)
| OAuth (oauth : manager).

(** How [createTokenProvider()] ends: with a provider, with a rejected
    promise, or in [process.exit(code)]. *)
Inductive startup :=
| Provides (provider : TokenProvider)
| Rejects (e : thrown)
| Exits (code : Z).

(** [createTokenProvider()], given the variables of the process, the
    network, the line the operator types if prompted and the world; what
    it prints is left out. *)
Definition createTokenProvider (vars : environment) (net : network)
  (answer : jstring) (w : world) : startup * world :=
  match SHARESIGHT_ACCESS_TOKEN vars with
  | Some (c :: t) => (Provides (Token (c :: t)), w)
  | Some [] | None =>
      match SHARESIGHT_CLIENT_ID vars, SHARESIGHT_CLIENT_SECRET vars with
      | Some (c1 :: t1), Some (c2 :: t2) =>
          match construct (c1 :: t1) (c2 :: t2) w with
          | (Throw e, st) => (Rejects e, env st)
          | (Ok _, st) =>
              match hasValidTokens st with
              | (Throw e, st1) => (Rejects e, env st1)
              | (Ok true, st1) => (Provides (OAuth (self st1)), env st1)
              | (Ok false, st1) =>
                  match runAuthorizationFlow net answer st1 with
                  | (Throw e, st2) => (Rejects e, env st2)
                  | (Ok _, st2) => (Provides (OAuth (self st2)), env st2)
                  end
              end
          end
      | _, _ => (Exits 1, w)
      end
  end.

End Server.

(** ** The one-time authentication program (src/auth-cli.ts) *)

Module Cli.
Import JS World OAuthManager Process.

(** How the program ends: in [process.exit(code)]; at the end of its
    input, a prompt pending whose promise never settles, so that node is
    left without work and exits on its own, with status 0; or waiting at
    a prompt nobody answers, the input being open. *)
Inductive ending :=
| Exit (code : Z)
| EndOfInput
| Waiting.

(** The exit status of the process, if it exits. *)
Definition status (e : ending) : option Z :=
  match e with
  | Exit code => Some code
  | EndOfInput => Some 0
  | Waiting => None
  end.

(** What comes of a question: a line, or the end of the input, or
    nothing. *)
Inductive reply :=
| Line (text : jstring) (rest : list jstring)
| Ended
| Silence.

(** [prompt(rl, question)], the operator typing the lines of [stdin],
    each at its prompt, after which the input ends ([closed]) or stays
    open with nothing typed: the next line, trimmed, and the lines still
    to come; with no line left the callback of [rl.question] never runs
    and the promise never settles. *)
Definition prompt (closed : bool) (stdin : list jstring) : reply :=
  match stdin with
  | line :: rest => Line (trim line) rest
  | [] => if closed then Ended else Silence
  end.

(** [process.env.NAME?.trim() || ""] *)
Definition trimmed (v : option jstring) : jstring :=
  match v with
  | Some s => trim s
  | None => []
  end.

(** One credential: the value from the environment, or the answer to a
    prompt; an empty answer ends the program with 1. *)
Definition credential (from_env : jstring) (closed : bool)
  (stdin : list jstring) : ending + jstring * list jstring :=
  if nonempty from_env then inr (from_env, stdin)
  else
    match prompt closed stdin with
    | Silence => inl Waiting
    | Ended => inl EndOfInput
    | Line answer rest =>
        if nonempty answer then inr (answer, rest) else inl (Exit 1)
    end.

(** [getCredentials()]: the client id, the client secret and the lines
    left unread. *)
Definition getCredentials (vars : environment) (closed : bool)
  (stdin : list jstring) : ending + jstring * jstring * list jstring :=
  let clientId := trimmed (SHARESIGHT_CLIENT_ID vars) in
  let clientSecret := trimmed (SHARESIGHT_CLIENT_SECRET vars) in
  if nonempty clientId && nonempty clientSecret
  then inr (clientId, clientSecret, stdin)
  else
    match credential clientId closed stdin with
    | inl e => inl e
    | inr (id, rest) =>
        match credential clientSecret closed rest with
        | inl e => inl e
        | inr (secret, rest') => inr (id, secret, rest')
        end
    end.

(** [main()]; what it prints is left out. *)
Definition main (vars : environment) (net : network) (closed : bool)
  (stdin : list jstring) (w : world) : ending * world :=
  match getCredentials vars closed stdin with
  | inl e => (e, w)
  | inr (clientId, clientSecret, rest) =>
      match construct clientId clientSecret w with
      | (Throw _, st) => (Exit 1, env st)
      | (Ok _, st) =>
          match hasValidTokens st with
          | (Throw _, st1) => (Exit 1, env st1)
          | (Ok true, st1) => (Exit 0, env st1)
          | (Ok false, st1) =>
              match getAuthorizationUrl st1 with
              | (Throw _, st2) => (Exit 1, env st2)
              | (Ok _, st2) =>
                  match prompt closed rest with
                  | Silence => (Waiting, env st2)
                  | Ended => (EndOfInput, env st2)
                  | Line code _ =>
                      if negb (nonempty code) then (Exit 1, env st2)
                      else
                        match exchangeCodeForTokens net code st2 with
                        | (Ok _, st3) => (Exit 0, env st3)
                        | (Throw _, st3) => (Exit 1, env st3)
                        end
                  end
              end
          end
      end
  end.

End Cli.

(** ** Further scenarios *)

Module Cases.
Import JS World OAuthManager Scenario Process.

(** The server of [net] never rotates the refresh token: a parsed body
    has no [refresh_token], or an empty one. *)
Definition never_rotates (net : network) : Prop :=
  forall req status text data,
    outcome (net req) = Response status (Body text (Some data)) ->
    refresh_token data = None \/ refresh_token data = Some [].

(** The calls that use a record without authorizing anew or restarting,
    each against a server that never rotates. *)
Definition uses_record (c : call) : Prop :=
  match c with
  | RefreshTokens net | GetValidAccessToken net => never_rotates net
  | GetAuthorizationUrl | HasValidTokens | IsTokenExpired | Wait _ => True
  | Construct _ _ | ExchangeCodeForTokens _ _ | RunAuthorizationFlow _ _ =>
      False
  end.

(** A grant without a refresh token, valid for an hour. *)
Definition granted_for (seconds : Z) (refresh : option jstring) : network :=
  always (Response 200 (Body []
    (Some {| access_token := lit "A1"; refresh_token := refresh;
             expires_in := seconds; token_type := lit "Bearer" |}))).

(** An object with an access token and nothing else. *)
Definition record_without_expiry : list (jstring * value) :=
  [(lit "access_token", VStr (lit "a"))].

(** A manager whose file held the JSON text [0]. *)
Definition holding_zero : state :=
  {| self := manager_with (VNum (Int 0)); env := at_time 0 (Some (lit "0")) |}.

(** A world with the record A1/R1 on file, and one without a file. *)
Definition world_with_A1 : world :=
  at_time 1000 (Some (stored_text (lit "A1") (lit "R1") 3540000 (lit "Bearer"))).

Definition empty_world : world := at_time 1000 None.

Definition oauth_vars : environment :=
  {| SHARESIGHT_ACCESS_TOKEN := None;
     SHARESIGHT_CLIENT_ID := Some (lit "my-client");
     SHARESIGHT_CLIENT_SECRET := Some (lit "s3cret") |}.


Definition padded_vars : environment :=
  {| SHARESIGHT_ACCESS_TOKEN := None;
     SHARESIGHT_CLIENT_ID := Some (lit "  my-client ");
     SHARESIGHT_CLIENT_SECRET := Some (lit "   ") |}.

End Cases.

(** * Properties *)

Module Properties.
Import JS World OAuthManager Scenario.

Arguments lit : simpl never.
Arguments JSON.parse : simpl never.

(** ** Saving *)

Lemma serialize_object (indent : jstring) (props : list (jstring * value)) :
  exists text, JSON.serialize indent (VObj props) = Some text.
Proof.
  simpl.
  match goal with
  | |- context [match ?m with [] => _ | _ :: _ => _ end] => destruct m
  end; eexists; reflexivity.
Qed.

Lemma saveTokens_object (props : list (jstring * value)) (st : state) :
  tokens (self st) = VObj props -> saveTokens st = (Ok tt, saved st).
Proof.
  intros Ht.
  destruct (serialize_object [] props) as [text Hs].
  unfold saveTokens, saved, bind, this_tokens. rewrite Ht. simpl truthy.
  cbv iota. unfold JSON.stringify. rewrite Hs. reflexivity.
Qed.

Lemma saved_self (st : state) : self (saved st) = self st.
Proof. unfold saved. destruct (JSON.stringify _); reflexivity. Qed.

Lemma saved_now (st : state) : now (env (saved st)) = now (env st).
Proof. unfold saved. destruct (JSON.stringify _); reflexivity. Qed.

Lemma saved_sent (st : state) : sent (env (saved st)) = sent (env st).
Proof. unfold saved. destruct (JSON.stringify _); reflexivity. Qed.

Lemma saved_file (props : list (jstring * value)) (st : state) :
  tokens (self st) = VObj props ->
  exists text,
    JSON.stringify (tokens (self st)) = Some text /\
    file (env (saved st)) = Some (to_well_formed text).
Proof.
  intros Ht. destruct (serialize_object [] props) as [text Hs].
  exists text. unfold saved. rewrite Ht. unfold JSON.stringify. rewrite Hs.
  split; reflexivity.
Qed.

Arguments saved : simpl never.

(** ** What one call of each operation does *)

Lemma exchange_steps (net : network) (code : jstring) (st : state) :
  let req := exchange_request (self st) code in
  let st1 := answered net req st in
  exchangeCodeForTokens net code st =
  match outcome (net req) with
  | NoResponse => (Throw FetchFailed, st1)
  | Response status content =>
      if ok status then
        match content with
        | Lost => (Throw BodyFailed, st1)
        | Body _ None => (Throw SyntaxError, st1)
        | Body _ (Some data) =>
            (Ok tt,
             saved
               (with_tokens
                  (stored (VStr (access_token data))
                          (match refresh_token data with
                           | Some r => VStr r
                           | None => VUndef
                           end)
                          (now (env st1) + expires_in data * 1000 - 60000)
                          (VStr (token_type data))) st1))
        end
      else
        match content with
        | Lost => (Throw BodyFailed, st1)
        | Body text _ => (Throw (EXCHANGE_FAILED status text), st1)
        end
  end.
Proof.
  intros req st1.
  unfold exchangeCodeForTokens, bind, this_clientId, this_clientSecret, fetch.
  fold (exchange_request (self st) code). fold req.
  destruct (outcome (net req)) as [|status content]; [reflexivity|].
  fold (answered net req st). fold st1.
  destruct (ok status); cbn [negb]; cbv beta iota.
  - destruct content as [|text [data|]]; reflexivity.
  - destruct content as [|text data]; reflexivity.
Qed.


Lemma get_opt_refresh_token (t : value) :
  get_opt t (lit "refresh_token") = Ok (stored_refresh_token t).
Proof. destruct t; reflexivity. Qed.

Lemma truthy_refresh_token (t : value) :
  truthy (stored_refresh_token t) = true ->
  get t (lit "refresh_token") = Ok (stored_refresh_token t).
Proof. destruct t; simpl; intros H; try discriminate; reflexivity. Qed.

Lemma refresh_steps (net : network) (st : state) :
  let old := stored_refresh_token (tokens (self st)) in
  refreshTokens net st =
  if truthy old then
    match to_string old with
    | Throw e => (Throw e, st)
    | Ok text =>
        let req := refresh_request (self st) text in
        let st1 := answered net req st in
        match outcome (net req) with
        | NoResponse => (Throw FetchFailed, st1)
        | Response status content =>
            if ok status then
              match content with
              | Lost => (Throw BodyFailed, st1)
              | Body _ None => (Throw SyntaxError, st1)
              | Body _ (Some data) =>
                  (Ok tt,
                   saved
                     (with_tokens
                        (stored (VStr (access_token data))
                                (match refresh_token data with
                                 | Some (c :: r) => VStr (c :: r)
                                 | Some [] | None => old
                                 end)
                                (now (env st1) + expires_in data * 1000 - 60000)
                                (VStr (token_type data))) st1))
              end
            else
              match content with
              | Lost => (Throw BodyFailed, st1)
              | Body text _ =>
                  (Throw (REFRESH_FAILED status text),
                   with_file None (with_tokens VNull st1))
              end
        end
    end
  else (Throw NO_REFRESH_TOKEN, st).
Proof.
  intros old.
  unfold refreshTokens, bind, this_tokens, lift. cbv beta.
  rewrite get_opt_refresh_token. fold old.
  destruct (truthy old) eqn:Hold; cbn [negb]; cbv beta iota; [|reflexivity].
  rewrite (truthy_refresh_token _ Hold). fold old.
  destruct (to_string old) as [text|e]; [|reflexivity].
  unfold this_clientId, this_clientSecret, fetch. cbv beta.
  fold (refresh_request (self st) text).
  set (req := refresh_request (self st) text).
  destruct (outcome (net req)) as [|status content]; [reflexivity|].
  fold (answered net req st).
  destruct (ok status); cbn [negb]; cbv beta iota.
  - destruct content as [|text' [data|]]; try reflexivity.
    unfold response_json, ret, Date_now, set_tokens, bind, this_tokens, lift.
    destruct (refresh_token data) as [[|c r]|]; cbv beta iota;
      change (tokens (self (answered net req st))) with (tokens (self st));
      try rewrite (truthy_refresh_token _ Hold); fold old; cbv beta iota;
      match goal with
      | |- saveTokens ?s = _ => exact (saveTokens_object _ s eq_refl)
      end.
  - destruct content as [|text' data]; reflexivity.
Qed.

Lemma isTokenExpired_steps (st : state) :
  isTokenExpired st =
  let t := tokens (self st) in
  if truthy t then
    match get t (lit "expires_at") with
    | Throw e => (Throw e, st)
    | Ok expires_at => (ge (now (env st)) expires_at, st)
    end
  else (Ok true, st).
Proof.
  unfold isTokenExpired, bind, this_tokens, Date_now, lift, ret.
  cbv beta zeta.
  destruct (truthy (tokens (self st))); cbn [negb]; cbv beta iota; [|reflexivity].
  reflexivity.
Qed.

Lemma getValidAccessToken_steps (net : network) (st : state) :
  getValidAccessToken net st =
  if truthy (tokens (self st)) then
    match isTokenExpired st with
    | (Throw e, st') => (Throw e, st')
    | (Ok true, st') =>
        match refreshTokens net st' with
        | (Throw e, st'') => (Throw e, st'')
        | (Ok _, st'') => (get (tokens (self st'')) (lit "access_token"), st'')
        end
    | (Ok false, st') => (get (tokens (self st')) (lit "access_token"), st')
    end
  else (Throw NOT_AUTHORIZED, st).
Proof.
  unfold getValidAccessToken, bind, this_tokens, lift, throw.
  destruct (truthy (tokens (self st))); cbn [negb]; cbv beta iota; [|reflexivity].
  destruct (isTokenExpired st) as [[[|]|e] st']; reflexivity.
Qed.

(** A request extends the log by one entry, so the log tells whether one
    was made. *)
Lemma cons_neq {A} (x : A) (l : list A) : x :: l <> l.
Proof.
  intros H. apply (f_equal (@List.length A)) in H. simpl in H. lia.
Qed.

(** ** A destroyed record stays destroyed until an authorization succeeds *)

Lemma exchange_throws_keeps (net : network) (code : jstring) (st : state)
  (e : thrown) (st' : state) :
  exchangeCodeForTokens net code st = (Throw e, st') ->
  self st' = self st /\ file (env st') = file (env st).
Proof.
  rewrite exchange_steps. cbv zeta.
  destruct (outcome _) as [|status content].
  - intros H; inversion H; subst; split; reflexivity.
  - destruct (ok status).
    + destruct content as [|text [data|]];
        intros H; inversion H; subst; split; reflexivity.
    + destruct content as [|text data];
        intros H; inversion H; subst; split; reflexivity.
Qed.

Lemma perform_keeps_destroyed (c : call) (st : state) :
  destroyed st -> authorizes c st = false -> destroyed (snd (perform c st)).
Proof.
  intros [Ht Hf] Ha.
  destruct c as [id secret| |net code|net| | |net|net answer|ms]; simpl.
  - unfold construct, loadTokens, try_catch, bind, existsSync. simpl.
    rewrite Hf. simpl. split; [reflexivity|exact Hf].
  - split; assumption.
  - simpl in Ha.
    destruct (exchangeCodeForTokens net code st) as [[u|e] st'] eqn:He;
      [discriminate|].
    destruct (exchange_throws_keeps _ _ _ _ _ He) as [Hs Hf'].
    unfold destroyed. simpl. rewrite Hs, Hf'. split; assumption.
  - rewrite refresh_steps. cbv zeta. rewrite Ht. simpl. split; assumption.
  - unfold hasValidTokens, bind, this_tokens, ret. simpl. split; assumption.
  - unfold bind. rewrite isTokenExpired_steps. cbv zeta. rewrite Ht. simpl.
    split; assumption.
  - unfold bind. rewrite getValidAccessToken_steps. rewrite Ht. simpl.
    split; assumption.
  - simpl in Ha. unfold runAuthorizationFlow, bind, getAuthorizationUrl in *.
    destruct (exchangeCodeForTokens net (trim answer) st) as [[u|e] st'] eqn:He;
      [discriminate|].
    destruct (exchange_throws_keeps _ _ _ _ _ He) as [Hs Hf'].
    unfold destroyed. simpl. rewrite Hs, Hf'. split; assumption.
  - split; assumption.
Qed.

Lemma run_keeps_destroyed (calls : list call) (st : state) :
  destroyed st -> no_authorization calls st = true -> destroyed (run calls st).
Proof.
  revert st. induction calls as [|c rest IH]; intros st Hd Hn; simpl.
  - exact Hd.
  - simpl in Hn. apply andb_true_iff in Hn. destruct Hn as [Ha Hr].
    apply negb_true_iff in Ha.
    apply IH; [apply perform_keeps_destroyed; assumption|exact Hr].
Qed.

(** ** Reading a call of [refreshTokens] or [exchangeCodeForTokens] back
    from its request *)

Lemma refresh_request_sent (net : network) (st : state) (r : result unit)
  (st' : state) (req : request) :
  refreshTokens net st = (r, st') ->
  sent (env st') = req :: sent (env st) ->
  exists text,
    truthy (stored_refresh_token (tokens (self st))) = true /\
    to_string (stored_refresh_token (tokens (self st))) = Ok text /\
    req = refresh_request (self st) text.
Proof.
  intros Hr Hs. rewrite refresh_steps in Hr. cbv zeta in Hr.
  destruct (truthy _) eqn:Ht;
    [|inversion Hr; subst; exfalso; symmetry in Hs; exact (cons_neq _ _ Hs)].
  destruct (to_string _) as [text|err] eqn:Hx;
    [|inversion Hr; subst; exfalso; symmetry in Hs; exact (cons_neq _ _ Hs)].
  exists text. split; [reflexivity|split; [reflexivity|]].
  assert (Hsent : sent (env st') = refresh_request (self st) text :: sent (env st)).
  { destruct (outcome _) as [|status content];
      [inversion Hr; subst; reflexivity|].
    destruct (ok status).
    - destruct content as [|body [data|]]; inversion Hr; subst; reflexivity.
    - destruct content as [|body data]; inversion Hr; subst; reflexivity. }
  rewrite Hsent in Hs. inversion Hs. reflexivity.
Qed.

Lemma exchange_request_sent (net : network) (code : jstring) (st : state)
  (r : result unit) (st' : state) :
  exchangeCodeForTokens net code st = (r, st') ->
  sent (env st') = exchange_request (self st) code :: sent (env st).
Proof.
  intros Hr. rewrite exchange_steps in Hr. cbv zeta in Hr.
  destruct (outcome _) as [|status content];
    [inversion Hr; subst; reflexivity|].
  destruct (ok status).
  - destruct content as [|body [data|]]; inversion Hr; subst; reflexivity.
  - destruct content as [|body data]; inversion Hr; subst; reflexivity.
Qed.

(** ** The authorization URL *)

Lemma form_byte_plain (b c : N) :
  In c (Url.form_byte b) -> c <> 38%N /\ c <> 61%N.
Proof.
  unfold Url.form_byte, Url.upper_hex.
  repeat match goal with
         | |- context [if ?b then _ else _] => destruct b eqn:?
         end;
    cbn [In]; intros H;
    repeat match goal with
           | H : _ \/ _ |- _ => destruct H
           | H : False |- _ => destruct H
           end; subst;
    repeat match goal with
           | H : (_ =? _)%N = _ |- _ =>
               first [apply N.eqb_eq in H | apply N.eqb_neq in H]
           | H : (_ <? _)%N = _ |- _ =>
               first [apply N.ltb_lt in H | apply N.ltb_ge in H]
           | H : (_ <=? _)%N = _ |- _ =>
               first [apply N.leb_le in H | apply N.leb_gt in H]
           | H : (_ || _) = true |- _ => apply orb_true_iff in H; destruct H
           | H : (_ || _) = false |- _ => apply orb_false_iff in H; destruct H
           | H : (_ && _) = true |- _ => apply andb_true_iff in H; destruct H
           | H : (_ && _) = false |- _ => apply andb_false_iff in H; destruct H
           end;
    try (set (q := (b / 16)%N) in *; clearbody q);
    try (set (m := (b mod 16)%N) in *; clearbody m);
    split; lia.
Qed.

Lemma form_encode_plain (s : jstring) (c : N) :
  In c (Url.form_encode s) -> c <> 38%N /\ c <> 61%N.
Proof.
  unfold Url.form_encode. intros H. apply in_flat_map in H.
  destruct H as (b & _ & H). exact (form_byte_plain b c H).
Qed.

(** ** Construction *)

Lemma construct_steps (id secret : jstring) (w : world) :
  construct id secret w =
  (Ok tt,
   {| self := {| clientId := id; clientSecret := secret;
                 tokens := match file w with
                           | None => VNull
                           | Some text =>
                               match JSON.parse text with
                               | Ok v => v
                               | Throw _ => VNull
                               end
                           end |};
      env := w |}).
Proof.
  unfold construct, loadTokens, try_catch, bind, existsSync, readFileSync,
    lift, set_tokens, ret.
  simpl. destruct (file w) as [text|] eqn:Hf; simpl; [|reflexivity].
  rewrite Hf. destruct (JSON.parse text); reflexivity.
Qed.

(** ** The fuel of [JSON.parse] is enough *)

Lemma skip_ws_length (s : jstring) :
  (List.length (JSON.skip_ws s) <= List.length s)%nat.
Proof.
  induction s as [|c s IH]; [reflexivity|].
  cbn [JSON.skip_ws]. destruct (JSON.is_ws c); simpl; lia.
Qed.

Lemma take_digits_length (s : jstring) :
  (List.length (snd (take_digits s)) <= List.length s)%nat
  /\ (fst (take_digits s) <> Decimal.Nil ->
      (List.length (snd (take_digits s)) < List.length s)%nat).
Proof.
  induction s as [|c s [IH _]]; [split; [reflexivity|intros H; elim H; reflexivity]|].
  cbn [take_digits]. destruct (is_digit c).
  - destruct (take_digits s) as [d rest]. simpl in *. split; intros; lia.
  - simpl. split; [lia|intros H; elim H; reflexivity].
Qed.

Lemma take_exponent_length (s : jstring) (e : Z) (r : jstring) :
  take_exponent s = Some (e, r) -> (List.length r <= List.length s)%nat.
Proof.
  destruct s as [|c s]; [intros H; inversion H; reflexivity|].
  cbn [take_exponent].
  destruct ((c =? 101) || (c =? 69))%N; [|intros H; inversion H; reflexivity].
  assert (Hs : forall neg r1, (List.length r1 <= List.length s)%nat ->
             match take_digits r1 with
             | (Decimal.Nil, _) => None
             | (d, rest) =>
                 Some (if neg : bool then - Z.of_N (N.of_uint d)
                       else Z.of_N (N.of_uint d), rest)
             end = Some (e, r) -> (List.length r <= List.length (c :: s))%nat).
  { intros neg r1 Hr1 H. pose proof (take_digits_length r1) as [Hl _].
    destruct (take_digits r1) as [d rest]. simpl in Hl.
    destruct d; inversion H; subst; simpl; lia. }
  destruct s as [|s' r'].
  - apply (Hs false). reflexivity.
  - destruct (s' =? 45)%N; [apply (Hs true); simpl; lia|].
    destruct (s' =? 43)%N; [apply (Hs false); simpl; lia|].
    apply (Hs false). reflexivity.
Qed.

Lemma string_body_length (s t r : jstring) :
  JSON.string_body s = Some (t, r) -> (List.length r < List.length s)%nat.
Proof.
  remember (List.length s) as n eqn:Hn.
  revert s t r Hn. induction n as [n IH] using lt_wf_ind. intros s t r Hn.
  assert (Hc : forall c s' x, (List.length s' < n)%nat ->
             JSON.cons_fst c (JSON.string_body s') = Some x ->
             (List.length (snd x) < List.length s')%nat).
  { intros c s' [t' r'] Hs' H. unfold JSON.cons_fst in H.
    destruct (JSON.string_body s') as [[t0 r0]|] eqn:Hb; [|discriminate].
    inversion H; subst. exact (IH _ Hs' _ _ _ eq_refl Hb). }
  destruct s as [|c s]; [discriminate|].
  cbn [JSON.string_body]. subst n.
  destruct (c =? 34)%N; [intros H; inversion H; subst; simpl; lia|].
  destruct (c =? 92)%N.
  - destruct s as [|e1 s]; [discriminate|].
    destruct (e1 =? 117)%N.
    + destruct s as [|h1 [|h2 [|h3 [|h4 s]]]]; try discriminate.
      destruct (JSON.hex4 h1 h2 h3 h4); [|discriminate].
      intros H. apply Hc in H; simpl in *; lia.
    + destruct (JSON.unescape e1); [|discriminate].
      intros H. apply Hc in H; simpl in *; lia.
  - destruct (c <? 32)%N; [discriminate|].
    intros H. apply Hc in H; simpl in *; lia.
Qed.

Lemma unsigned_number_length (neg : bool) (s : jstring) (n : number)
  (r : jstring) :
  JSON.unsigned_number neg s = Some (n, r) ->
  (List.length r < List.length s)%nat.
Proof.
  unfold JSON.unsigned_number.
  pose proof (take_digits_length s) as [_ Hlt].
  destruct (take_digits s) as [int r1]. simpl in Hlt.
  assert (Hgo : int <> Decimal.Nil ->
            match
              match r1 with
              | c :: r2 =>
                  if (c =? 46)%N then
                    match take_digits r2 with
                    | (Decimal.Nil, _) => None
                    | (f, r3) => Some (f, r3)
                    end
                  else Some (Decimal.Nil, r1)
              | [] => Some (Decimal.Nil, r1)
              end
            with
            | None => None
            | Some (f, r3) =>
                match take_exponent r3 with
                | None => None
                | Some (e, r4) => Some (decimal_value neg int f e, r4)
                end
            end = Some (n, r) -> (List.length r < List.length s)%nat).
  { intros Hint H. specialize (Hlt Hint).
    assert (Hfrac : forall f r3,
               match r1 with
               | c :: r2 =>
                   if (c =? 46)%N then
                     match take_digits r2 with
                     | (Decimal.Nil, _) => None
                     | (f, r3) => Some (f, r3)
                     end
                   else Some (Decimal.Nil, r1)
               | [] => Some (Decimal.Nil, r1)
               end = Some (f, r3) ->
               (List.length r3 <= List.length r1)%nat).
    { intros f r3 Hf. destruct r1 as [|c r2]; [inversion Hf; reflexivity|].
      destruct (c =? 46)%N; [|inversion Hf; reflexivity].
      pose proof (take_digits_length r2) as [Hl _].
      destruct (take_digits r2) as [d rest]. simpl in Hl.
      destruct d; inversion Hf; subst; simpl; lia. }
    destruct (match r1 with [] => _ | _ :: _ => _ end) as [[f r3]|];
      [|discriminate].
    specialize (Hfrac f r3 eq_refl).
    destruct (take_exponent r3) as [[e r4]|] eqn:He; [|discriminate].
    apply take_exponent_length in He. inversion H; subst. lia. }
  destruct int as [|d|d|d|d|d|d|d|d|d|d]; try discriminate;
    try (apply Hgo; discriminate).
  destruct d; try discriminate; apply Hgo; discriminate.
Qed.

Lemma parse_number_length (s : jstring) (n : number) (r : jstring) :
  JSON.parse_number s = Some (n, r) -> (List.length r < List.length s)%nat.
Proof.
  unfold JSON.parse_number. destruct s as [|c s].
  - apply unsigned_number_length.
  - destruct (c =? 45)%N.
    + intros H. apply unsigned_number_length in H. simpl. lia.
    + apply unsigned_number_length.
Qed.

Lemma expect_length (word : jstring) (v v' : value) (s r : jstring) :
  word <> [] -> JSON.expect word v s = Some (v', r) ->
  (List.length r < List.length s)%nat.
Proof.
  unfold JSON.expect, jstring_eqb. intros Hw.
  destruct (list_eq_dec N.eq_dec _ word) as [E|E]; [|discriminate].
  intros H. inversion H; subst r.
  rewrite length_skipn.
  assert (Hl : List.length (firstn (List.length word) s) = List.length word)
    by (rewrite E; reflexivity).
  rewrite length_firstn in Hl.
  destruct word; [elim Hw; reflexivity|]. cbn [List.length] in *. lia.
Qed.

Ltac shorter :=
  repeat match goal with
         | H : JSON.skip_ws ?s = _ |- _ =>
             let L := fresh "L" in
             pose proof (skip_ws_length s) as L; rewrite H in L; clear H
         | H : JSON.string_body _ = Some _ |- _ => apply string_body_length in H
         end;
  cbn [List.length] in *; try lia.

(** Every successful step of the parser consumes input. *)
Lemma parse_consumes (f : nat) :
  (forall s v r, JSON.parse_value f s = Some (v, r) ->
                 (List.length r < List.length s)%nat)
  /\ (forall acc s v r, JSON.parse_elements f acc s = Some (v, r) ->
                        (List.length r < List.length s)%nat)
  /\ (forall props s v r, JSON.parse_members f props s = Some (v, r) ->
                          (List.length r < List.length s)%nat).
Proof.
  induction f as [|f (IHv & IHe & IHm)];
    [repeat split; intros; discriminate|].
  split; [|split].
  - intros s v r. cbn [JSON.parse_value].
    destruct (JSON.skip_ws s) as [|c r0] eqn:Hs; [discriminate|].
    destruct (c =? 123)%N.
    { destruct (JSON.skip_ws r0) as [|c' r'] eqn:Hr0.
      - intros H. apply IHm in H. simpl in H. lia.
      - destruct (c' =? 125)%N.
        + intros H. inversion H; subst. shorter.
        + intros H. apply IHm in H. shorter. }
    destruct (c =? 91)%N.
    { destruct (JSON.skip_ws r0) as [|c' r'] eqn:Hr0.
      - intros H. apply IHe in H. simpl in H. lia.
      - destruct (c' =? 93)%N.
        + intros H. inversion H; subst. shorter.
        + intros H. apply IHe in H. shorter. }
    destruct (c =? 34)%N.
    { destruct (JSON.string_body r0) as [[t r']|] eqn:Hb; [|discriminate].
      intros H. inversion H; subst. shorter. }
    destruct (c =? 110)%N.
    { intros H. apply expect_length in H; [shorter|discriminate]. }
    destruct (c =? 116)%N.
    { intros H. apply expect_length in H; [shorter|discriminate]. }
    destruct (c =? 102)%N.
    { intros H. apply expect_length in H; [shorter|discriminate]. }
    destruct (JSON.parse_number (c :: r0)) as [[n r']|] eqn:Hn; [|discriminate].
    intros H. inversion H; subst. apply parse_number_length in Hn. shorter.
  - intros acc s v r. cbn [JSON.parse_elements].
    destruct (JSON.parse_value f s) as [[v0 r0]|] eqn:Hv; [|discriminate].
    apply IHv in Hv.
    destruct (JSON.skip_ws r0) as [|c r'] eqn:Hr0; [discriminate|].
    destruct (c =? 44)%N.
    + intros H. apply IHe in H. shorter.
    + destruct (c =? 93)%N; [|discriminate].
      intros H. inversion H; subst. shorter.
  - intros props s v r. cbn [JSON.parse_members].
    destruct (JSON.skip_ws s) as [|q r0] eqn:Hs; [discriminate|].
    destruct (q =? 34)%N; [|discriminate].
    destruct (JSON.string_body r0) as [[k r1]|] eqn:Hb; [|discriminate].
    destruct (JSON.skip_ws r1) as [|c r2] eqn:Hr1; [discriminate|].
    destruct (c =? 58)%N; [|discriminate].
    destruct (JSON.parse_value f r2) as [[v0 r3]|] eqn:Hv; [|discriminate].
    apply IHv in Hv.
    destruct (JSON.skip_ws r3) as [|d r4] eqn:Hr3; [discriminate|].
    destruct (d =? 44)%N.
    + intros H. apply IHm in H. shorter.
    + destruct (d =? 125)%N; [|discriminate].
      intros H. inversion H; subst. shorter.
Qed.

(** Above twice the length of the text, the fuel does not matter. *)
Lemma parse_fuel (f1 : nat) :
  (forall f2 s, (2 * List.length s + 1 <= f1)%nat ->
                (2 * List.length s + 1 <= f2)%nat ->
                JSON.parse_value f1 s = JSON.parse_value f2 s)
  /\ (forall f2 acc s, (2 * List.length s + 2 <= f1)%nat ->
                       (2 * List.length s + 2 <= f2)%nat ->
                       JSON.parse_elements f1 acc s = JSON.parse_elements f2 acc s)
  /\ (forall f2 props s, (2 * List.length s + 2 <= f1)%nat ->
                         (2 * List.length s + 2 <= f2)%nat ->
                         JSON.parse_members f1 props s
                         = JSON.parse_members f2 props s).
Proof.
  induction f1 as [|g1 (IHv & IHe & IHm)];
    [repeat split; intros; lia|].
  split; [|split].
  - intros [|g2] s H1 H2; [lia|]. cbn [JSON.parse_value].
    destruct (JSON.skip_ws s) as [|c r0] eqn:Hs; [reflexivity|].
    destruct (c =? 123)%N.
    { destruct (JSON.skip_ws r0) as [|c' r'] eqn:Hr0.
      - apply IHm; shorter.
      - destruct (c' =? 125)%N; [reflexivity|]. apply IHm; shorter. }
    destruct (c =? 91)%N; [|reflexivity].
    destruct (JSON.skip_ws r0) as [|c' r'] eqn:Hr0.
    + apply IHe; shorter.
    + destruct (c' =? 93)%N; [reflexivity|]. apply IHe; shorter.
  - intros [|g2] acc s H1 H2; [lia|]. cbn [JSON.parse_elements].
    rewrite (IHv g2 s) by lia.
    destruct (JSON.parse_value g2 s) as [[v0 r0]|] eqn:Hv; [|reflexivity].
    apply (proj1 (parse_consumes g2)) in Hv.
    destruct (JSON.skip_ws r0) as [|c r'] eqn:Hr0; [reflexivity|].
    destruct (c =? 44)%N; [|reflexivity]. apply IHe; shorter.
  - intros [|g2] props s H1 H2; [lia|]. cbn [JSON.parse_members].
    destruct (JSON.skip_ws s) as [|q r0] eqn:Hs; [reflexivity|].
    destruct (q =? 34)%N; [|reflexivity].
    destruct (JSON.string_body r0) as [[k r1]|] eqn:Hb; [|reflexivity].
    destruct (JSON.skip_ws r1) as [|c r2] eqn:Hr1; [reflexivity|].
    destruct (c =? 58)%N; [|reflexivity].
    assert (Hr2 : (List.length r2 < List.length s)%nat) by shorter.
    rewrite (IHv g2 r2) by lia.
    destruct (JSON.parse_value g2 r2) as [[v0 r3]|] eqn:Hv; [|reflexivity].
    apply (proj1 (parse_consumes g2)) in Hv.
    destruct (JSON.skip_ws r3) as [|d r4] eqn:Hr3; [reflexivity|].
    destruct (d =? 44)%N; [|reflexivity]. apply IHm; shorter.
Qed.

(** [JSON.parse] gives the same result with any larger fuel: its own
    never runs out. *)
Lemma parse_total (text : jstring) (fuel : nat) :
  (2 * List.length text + 1 <= fuel)%nat ->
  JSON.parse_value fuel text
  = JSON.parse_value (2 * List.length text + 1) text.
Proof.
  intros H. apply (proj1 (parse_fuel fuel)); lia.
Qed.

(** ** [JSON.parse] reads back what [JSON.stringify] wrote *)

Lemma hex_digit_char (d : N) : (d < 16)%N -> JSON.hex_digit (JSON.hex_char d) = Some d.
Proof.
  intros H.
  assert (Hd : In d [0;1;2;3;4;5;6;7;8;9;10;11;12;13;14;15]%N).
  { destruct d as [|p]; [left; reflexivity|].
    do 15 (destruct p as [p|p|]; try (exfalso; lia);
           try (simpl; tauto)). }
  simpl in Hd.
  repeat (destruct Hd as [Hd|Hd]; [subst d; reflexivity|]).
  destruct Hd.
Qed.

Lemma hex4_uescape (c : N) :
  (c < 65536)%N ->
  JSON.hex4 (JSON.hex_char (c / 4096)) (JSON.hex_char ((c / 256) mod 16))
            (JSON.hex_char ((c / 16) mod 16)) (JSON.hex_char (c mod 16))
  = Some c.
Proof.
  intros H. unfold JSON.hex4.
  assert (H1 : (c / 4096 < 16)%N).
  { apply N.Div0.div_lt_upper_bound. exact H. }
  rewrite (hex_digit_char _ H1).
  rewrite (hex_digit_char ((c / 256) mod 16)) by (apply N.mod_lt; discriminate).
  rewrite (hex_digit_char ((c / 16) mod 16)) by (apply N.mod_lt; discriminate).
  rewrite (hex_digit_char (c mod 16)) by (apply N.mod_lt; discriminate).
  f_equal.
  pose proof (N.div_mod c 16 ltac:(discriminate)) as E0.
  pose proof (N.div_mod (c / 16) 16 ltac:(discriminate)) as E1.
  pose proof (N.div_mod (c / 256) 16 ltac:(discriminate)) as E2.
  assert (E3 : (c / 16 / 16 = c / 256)%N) by (rewrite N.Div0.div_div; reflexivity).
  assert (E4 : (c / 256 / 16 = c / 4096)%N) by (rewrite N.Div0.div_div; reflexivity).
  rewrite E3 in E1. rewrite E4 in E2.
  set (q3 := (c / 4096)%N) in *. set (q2 := (c / 256)%N) in *.
  set (q1 := (c / 16)%N) in *.
  set (m0 := (c mod 16)%N) in *. set (m1 := (q1 mod 16)%N) in *.
  set (m2 := (q2 mod 16)%N) in *.
  clearbody q3 q2 q1 m0 m1 m2. lia.
Qed.

Lemma string_body_plain (c : N) (rest : jstring) :
  c <> 34%N -> c <> 92%N -> (32 <= c)%N ->
  JSON.string_body (c :: rest) = JSON.cons_fst c (JSON.string_body rest).
Proof.
  intros H1 H2 H3. simpl.
  apply N.eqb_neq in H1. apply N.eqb_neq in H2. rewrite H1, H2.
  destruct (c <? 32)%N eqn:H4; [apply N.ltb_lt in H4; lia|reflexivity].
Qed.

Lemma string_body_uescape (c : N) (rest : jstring) :
  (c < 65536)%N ->
  JSON.string_body (JSON.uescape c ++ rest)
  = JSON.cons_fst c (JSON.string_body rest).
Proof.
  intros H. unfold JSON.uescape. cbn [app JSON.string_body N.eqb Pos.eqb].
  rewrite (hex4_uescape c H). reflexivity.
Qed.

Lemma string_body_escape (c : N) (rest : jstring) :
  is_high c = false -> is_low c = false ->
  JSON.string_body (JSON.escape c ++ rest)
  = JSON.cons_fst c (JSON.string_body rest).
Proof.
  intros Hh Hl. unfold JSON.escape.
  repeat match goal with
         | |- context [if (?a =? ?b)%N then _ else _] =>
             destruct (N.eqb_spec a b); [subst c; reflexivity|]
         end.
  destruct (N.ltb_spec c 32).
  - apply string_body_uescape. lia.
  - apply string_body_plain; assumption.
Qed.

Lemma surrogate_bounds (c : N) :
  is_high c = true \/ is_low c = true ->
  (c < 65536 /\ 32 <= c /\ c <> 34 /\ c <> 92)%N.
Proof.
  unfold is_high, is_low. intros [H|H];
    apply andb_true_iff in H; destruct H as [H1 H2];
    apply N.leb_le in H1; apply N.leb_le in H2; lia.
Qed.

Lemma string_body_quote_body (s rest : jstring) :
  JSON.string_body (JSON.quote_body s ++ 34%N :: rest) = Some (s, rest).
Proof.
  remember (List.length s) as n eqn:Hn.
  revert s Hn. induction n as [n IH] using lt_wf_ind. intros s Hn.
  destruct s as [|c r]; [reflexivity|].
  cbn [JSON.quote_body].
  destruct (is_high c) eqn:Hh.
  - destruct (surrogate_bounds c (or_introl Hh)) as (B1 & B2 & B3 & B4).
    destruct r as [|d r'].
    + rewrite string_body_uescape by exact B1. reflexivity.
    + destruct (is_low d) eqn:Hl.
      * destruct (surrogate_bounds d (or_intror Hl)) as (D1 & D2 & D3 & D4).
        cbn [app]. rewrite string_body_plain by assumption.
        rewrite string_body_plain by assumption.
        rewrite (IH (List.length r')) by (subst n; simpl; lia || reflexivity).
        reflexivity.
      * rewrite <- app_assoc, string_body_uescape by exact B1.
        rewrite (IH (List.length (d :: r'))) by (subst n; simpl; lia || reflexivity).
        reflexivity.
  - destruct (is_low c) eqn:Hl.
    + destruct (surrogate_bounds c (or_intror Hl)) as (B1 & B2 & B3 & B4).
      rewrite <- app_assoc, string_body_uescape by exact B1.
      rewrite (IH (List.length r)) by (subst n; simpl; lia || reflexivity).
      reflexivity.
    + rewrite <- app_assoc, string_body_escape by assumption.
      rewrite (IH (List.length r)) by (subst n; simpl; lia || reflexivity).
      reflexivity.
Qed.

Lemma take_digits_uint_chars (d : Decimal.uint) (tail : jstring) :
  take_digits (uint_chars d ++ 44%N :: tail) = (d, 44%N :: tail).
Proof.
  induction d as [|d IH|d IH|d IH|d IH|d IH|d IH|d IH|d IH|d IH|d IH];
    [reflexivity| | | | | | | | | |];
    cbn [uint_chars app take_digits]; rewrite IH; reflexivity.
Qed.

Lemma to_uint_normal (n : N) : Decimal.unorm (N.to_uint n) = N.to_uint n.
Proof.
  rewrite <- DecimalN.Unsigned.to_of, DecimalN.Unsigned.of_to. reflexivity.
Qed.

Lemma to_uint_leading_zero (n : N) (d : Decimal.uint) :
  N.to_uint n = Decimal.D0 d -> d = Decimal.Nil.
Proof.
  intros H. pose proof (to_uint_normal n) as Hn. rewrite H in Hn.
  rewrite DecimalFacts.unorm_D0 in Hn. unfold Decimal.unorm in Hn.
  destruct (Decimal.nzhead d) eqn:Hz; try discriminate.
  - inversion Hn. reflexivity.
  - exfalso. rewrite Hn in Hz. exact (DecimalFacts.nzhead_nonzero _ _ Hz).
Qed.

Lemma to_uint_not_nil (n : N) : N.to_uint n <> Decimal.Nil.
Proof.
  rewrite <- to_uint_normal. apply DecimalFacts.unorm_nonnil.
Qed.

Lemma unsigned_number_digits (neg : bool) (n : N) (tail : jstring) :
  JSON.unsigned_number neg (digits n ++ 44%N :: tail)
  = Some (Int (if neg then - Z.of_N n else Z.of_N n), 44%N :: tail).
Proof.
  unfold JSON.unsigned_number, digits. rewrite take_digits_uint_chars.
  pose proof (to_uint_not_nil n) as Hnil.
  pose proof (to_uint_leading_zero n) as Hzero.
  assert (Hv : decimal_value neg (N.to_uint n) Decimal.Nil 0
               = Int (if neg then - Z.of_N n else Z.of_N n)).
  { unfold decimal_value. rewrite DecimalFacts.app_nil_r.
    rewrite DecimalN.Unsigned.of_to. unfold scaled. simpl.
    f_equal. destruct neg; lia. }
  destruct (N.to_uint n) as [|d|d|d|d|d|d|d|d|d|d] eqn:Hu;
    try (exfalso; apply Hnil; reflexivity);
    try (cbn [take_exponent N.eqb Pos.eqb orb]; rewrite Hv; reflexivity).
  rewrite (Hzero d eq_refl) in *.
  cbn [take_exponent N.eqb Pos.eqb orb]. rewrite Hv. reflexivity.
Qed.

Lemma parse_number_int (e : Z) (tail : jstring) :
  Z.abs e < 10 ^ 21 ->
  JSON.parse_number (number_to_string (Int e) ++ 44%N :: tail)
  = Some (Int e, 44%N :: tail).
Proof.
  intros Hb. unfold number_to_string.
  apply Z.ltb_lt in Hb. rewrite Hb.
  destruct (e <? 0) eqn:Hneg.
  - apply Z.ltb_lt in Hneg. rewrite <- app_assoc.
    change (lit "-" ++ digits (Z.abs_N e) ++ 44%N :: tail)
      with (45%N :: digits (Z.abs_N e) ++ 44%N :: tail).
    cbn [JSON.parse_number N.eqb Pos.eqb].
    rewrite unsigned_number_digits, N2Z.inj_abs_N. do 3 f_equal; lia.
  - apply Z.ltb_ge in Hneg. cbn [app].
    assert (Hp : JSON.parse_number (digits (Z.abs_N e) ++ 44%N :: tail)
                 = JSON.unsigned_number false (digits (Z.abs_N e) ++ 44%N :: tail)).
    { unfold digits. destruct (N.to_uint (Z.abs_N e)); reflexivity. }
    rewrite Hp, unsigned_number_digits, N2Z.inj_abs_N. do 3 f_equal; lia.
Qed.

Lemma stringify_stored (a r : jstring) (e : Z) (t : jstring) :
  JSON.stringify (stored (VStr a) (VStr r) e (VStr t))
  = Some (stored_text a r e t).
Proof.
  unfold JSON.stringify, stored, stored_text.
  cbn [JSON.serialize JSON.join].
  repeat rewrite <- app_assoc. reflexivity.
Qed.

Lemma skip_ws_app (ws rest : jstring) :
  forallb JSON.is_ws ws = true ->
  JSON.skip_ws (ws ++ rest) = JSON.skip_ws rest.
Proof.
  induction ws as [|c ws IH]; [reflexivity|].
  cbn [forallb app JSON.skip_ws]. intros H.
  apply andb_true_iff in H. destruct H as [Hc Hws].
  rewrite Hc. exact (IH Hws).
Qed.

Lemma parse_value_string (f : nat) (s rest : jstring) :
  JSON.parse_value (S f) (32%N :: JSON.quote s ++ rest) = Some (VStr s, rest).
Proof.
  unfold JSON.quote.
  cbn [JSON.parse_value JSON.skip_ws JSON.is_ws N.eqb Pos.eqb orb app].
  rewrite <- app_assoc. cbn [app].
  rewrite string_body_quote_body. reflexivity.
Qed.

Lemma number_head (e : Z) :
  Z.abs e < 10 ^ 21 ->
  exists c r,
    number_to_string (Int e) = c :: r /\
    In c [45; 48; 49; 50; 51; 52; 53; 54; 55; 56; 57]%N.
Proof.
  intros Hb. apply Z.ltb_lt in Hb. unfold number_to_string. rewrite Hb.
  destruct (e <? 0).
  - eexists; eexists; (split; [reflexivity|simpl; tauto]).
  - unfold digits. pose proof (to_uint_not_nil (Z.abs_N e)) as Hnil.
    destruct (N.to_uint (Z.abs_N e));
      [exfalso; apply Hnil; reflexivity| | | | | | | | | |];
      eexists; eexists; (split; [reflexivity|simpl; tauto]).
Qed.

Lemma parse_value_number (f : nat) (c : N) (r : jstring) :
  In c [45; 48; 49; 50; 51; 52; 53; 54; 55; 56; 57]%N ->
  JSON.parse_value (S f) (32%N :: c :: r)
  = match JSON.parse_number (c :: r) with
    | Some (n, r') => Some (VNum n, r')
    | None => None
    end.
Proof.
  intros Hc. simpl in Hc.
  repeat (destruct Hc as [Hc|Hc]; [subst c; reflexivity|]).
  destruct Hc.
Qed.

Lemma parse_value_int (f : nat) (e : Z) (tail : jstring) :
  Z.abs e < 10 ^ 21 ->
  JSON.parse_value (S f) (32%N :: number_to_string (Int e) ++ 44%N :: tail)
  = Some (VNum (Int e), 44%N :: tail).
Proof.
  intros Hb. pose proof (parse_number_int e tail Hb) as Hp.
  destruct (number_head e Hb) as (c & r & Hn & Hc).
  rewrite Hn in *. cbn [app] in *.
  rewrite (parse_value_number f c _ Hc), Hp. reflexivity.
Qed.

Lemma parse_members_key (f : nat) (props : list (jstring * value))
  (ws key rest : jstring) :
  forallb JSON.is_ws ws = true ->
  JSON.parse_members (S f) props (ws ++ JSON.quote key ++ 58%N :: rest)
  = match JSON.parse_value f rest with
    | Some (v, r3) =>
        match JSON.skip_ws r3 with
        | d :: r4 =>
            if (d =? 44)%N
            then JSON.parse_members f (JSON.define key v props) r4
            else if (d =? 125)%N
            then Some (VObj (JSON.define key v props), r4)
            else None
        | [] => None
        end
    | None => None
    end.
Proof.
  intros Hws. cbn [JSON.parse_members]. rewrite (skip_ws_app _ _ Hws).
  unfold JSON.quote.
  cbn [JSON.skip_ws JSON.is_ws N.eqb Pos.eqb orb app].
  rewrite <- app_assoc. cbn [app].
  rewrite string_body_quote_body.
  cbn [JSON.skip_ws JSON.is_ws N.eqb Pos.eqb orb].
  reflexivity.
Qed.

Lemma parse_members_first (f : nat) (props : list (jstring * value))
  (key rest : jstring) :
  JSON.parse_members (S f) props (JSON.quote key ++ 58%N :: rest)
  = match JSON.parse_value f rest with
    | Some (v, r3) =>
        match JSON.skip_ws r3 with
        | d :: r4 =>
            if (d =? 44)%N
            then JSON.parse_members f (JSON.define key v props) r4
            else if (d =? 125)%N
            then Some (VObj (JSON.define key v props), r4)
            else None
        | [] => None
        end
    | None => None
    end.
Proof. exact (parse_members_key f props [] key rest eq_refl). Qed.

Lemma parse_members_next (f : nat) (props : list (jstring * value))
  (key rest : jstring) :
  JSON.parse_members (S f) props
    (10%N :: 32%N :: 32%N :: JSON.quote key ++ 58%N :: rest)
  = match JSON.parse_value f rest with
    | Some (v, r3) =>
        match JSON.skip_ws r3 with
        | d :: r4 =>
            if (d =? 44)%N
            then JSON.parse_members f (JSON.define key v props) r4
            else if (d =? 125)%N
            then Some (VObj (JSON.define key v props), r4)
            else None
        | [] => None
        end
    | None => None
    end.
Proof. exact (parse_members_key f props [10; 32; 32]%N key rest eq_refl). Qed.

Lemma parse_value_object (f : nat) (key rest : jstring) :
  JSON.parse_value (S f) (123%N :: 10%N :: 32%N :: 32%N :: JSON.quote key ++ rest)
  = JSON.parse_members f [] (JSON.quote key ++ rest).
Proof. reflexivity. Qed.

Lemma parse_stored_text (a r : jstring) (e : Z) (t : jstring) :
  Z.abs e < 10 ^ 21 ->
  JSON.parse (stored_text a r e t) = Ok (stored (VStr a) (VStr r) e (VStr t)).
Proof.
  intros Hb. unfold JSON.parse.
  assert (Hfuel : exists k, (2 * List.length (stored_text a r e t) + 1
                             = S (S (S (S (S (S k))))))%nat).
  { unfold stored_text. cbn [List.length].
    match goal with
    | |- context [S (S (S (S (List.length ?x))))] => generalize (List.length x)
    end.
    intros n. exists (2 * n + 3)%nat. lia. }
  destruct Hfuel as [k Hk]. rewrite Hk. clear Hk.
  unfold stored_text.
  rewrite parse_value_object.
  rewrite parse_members_first, parse_value_string.
  cbn [JSON.skip_ws JSON.is_ws N.eqb Pos.eqb orb].
  rewrite parse_members_next, parse_value_string.
  cbn [JSON.skip_ws JSON.is_ws N.eqb Pos.eqb orb].
  rewrite parse_members_next, (parse_value_int _ _ _ Hb).
  cbn [JSON.skip_ws JSON.is_ws N.eqb Pos.eqb orb].
  rewrite parse_members_next, parse_value_string.
  reflexivity.
Qed.

(** ** The text of a record survives the UTF-8 file *)

Lemma to_well_formed_cons (c : N) (s : jstring) :
  is_high c = false -> is_low c = false ->
  to_well_formed (c :: s) = c :: to_well_formed s.
Proof. intros Hh Hl. cbn [to_well_formed]. rewrite Hh, Hl. reflexivity. Qed.

Lemma ascii_not_surrogate (c : N) :
  (c <? 128)%N = true -> is_high c = false /\ is_low c = false.
Proof.
  intros H. apply N.ltb_lt in H. unfold is_high, is_low.
  split; apply andb_false_iff; left; apply N.leb_gt; lia.
Qed.

Lemma to_well_formed_ascii (s rest : jstring) :
  forallb (fun c => (c <? 128)%N) s = true ->
  to_well_formed (s ++ rest) = s ++ to_well_formed rest.
Proof.
  induction s as [|c s IH]; [reflexivity|].
  cbn [forallb app]. intros H. apply andb_true_iff in H. destruct H as [Hc Hs].
  destruct (ascii_not_surrogate c Hc) as [Hh Hl].
  rewrite (to_well_formed_cons _ _ Hh Hl), (IH Hs). reflexivity.
Qed.

Lemma hex_char_ascii (d : N) : (d < 16)%N -> (JSON.hex_char d <? 128)%N = true.
Proof.
  intros H. unfold JSON.hex_char. apply N.ltb_lt.
  destruct (d <? 10)%N; lia.
Qed.

Lemma uescape_ascii (c : N) :
  (c < 65536)%N -> forallb (fun c => (c <? 128)%N) (JSON.uescape c) = true.
Proof.
  intros H. unfold JSON.uescape. cbn [forallb].
  rewrite (hex_char_ascii (c / 4096))
    by (apply N.Div0.div_lt_upper_bound; exact H).
  rewrite !hex_char_ascii by (apply N.mod_lt; discriminate).
  reflexivity.
Qed.

Lemma to_well_formed_escape (c : N) (rest : jstring) :
  is_high c = false -> is_low c = false ->
  to_well_formed (JSON.escape c ++ rest) = JSON.escape c ++ to_well_formed rest.
Proof.
  intros Hh Hl. unfold JSON.escape.
  repeat match goal with
         | |- context [if (?a =? ?b)%N then _ else _] =>
             destruct (N.eqb_spec a b);
             [apply to_well_formed_ascii; reflexivity|]
         end.
  destruct (N.ltb_spec c 32).
  - apply to_well_formed_ascii, uescape_ascii. lia.
  - apply to_well_formed_cons; assumption.
Qed.

Lemma to_well_formed_quote_body (s rest : jstring) :
  to_well_formed (JSON.quote_body s ++ rest)
  = JSON.quote_body s ++ to_well_formed rest.
Proof.
  remember (List.length s) as n eqn:Hn.
  revert s Hn. induction n as [n IH] using lt_wf_ind. intros s Hn.
  destruct s as [|c r]; [reflexivity|].
  cbn [JSON.quote_body].
  destruct (is_high c) eqn:Hh.
  - destruct (surrogate_bounds c (or_introl Hh)) as (B1 & _).
    destruct r as [|d r'].
    + apply to_well_formed_ascii, uescape_ascii, B1.
    + destruct (is_low d) eqn:Hl.
      * cbn [app to_well_formed]. rewrite Hh, Hl.
        rewrite (IH (List.length r')) by (subst n; simpl; lia || reflexivity).
        reflexivity.
      * rewrite <- !app_assoc.
        rewrite to_well_formed_ascii by (apply uescape_ascii, B1).
        rewrite (IH (List.length (d :: r')))
          by (subst n; simpl; lia || reflexivity).
        reflexivity.
  - destruct (is_low c) eqn:Hl.
    + destruct (surrogate_bounds c (or_intror Hl)) as (B1 & _).
      rewrite <- !app_assoc.
      rewrite to_well_formed_ascii by (apply uescape_ascii, B1).
      rewrite (IH (List.length r)) by (subst n; simpl; lia || reflexivity).
      reflexivity.
    + rewrite <- !app_assoc, to_well_formed_escape by assumption.
      rewrite (IH (List.length r)) by (subst n; simpl; lia || reflexivity).
      reflexivity.
Qed.

Lemma to_well_formed_quote (s rest : jstring) :
  to_well_formed (JSON.quote s ++ rest) = JSON.quote s ++ to_well_formed rest.
Proof.
  unfold JSON.quote. cbn [app].
  rewrite to_well_formed_cons by reflexivity.
  rewrite <- !app_assoc, to_well_formed_quote_body. cbn [app].
  rewrite to_well_formed_cons by reflexivity. reflexivity.
Qed.

Lemma uint_chars_ascii (d : Decimal.uint) :
  forallb (fun c => (c <? 128)%N) (uint_chars d) = true.
Proof. induction d; cbn [uint_chars forallb]; try rewrite IHd; reflexivity. Qed.

Lemma to_well_formed_int (e : Z) (rest : jstring) :
  Z.abs e < 10 ^ 21 ->
  to_well_formed (number_to_string (Int e) ++ rest)
  = number_to_string (Int e) ++ to_well_formed rest.
Proof.
  intros Hb. apply Z.ltb_lt in Hb. unfold number_to_string. rewrite Hb.
  apply to_well_formed_ascii. rewrite forallb_app.
  unfold digits. rewrite uint_chars_ascii.
  destruct (e <? 0); reflexivity.
Qed.

Lemma to_well_formed_stored_text (a r : jstring) (e : Z) (t : jstring) :
  Z.abs e < 10 ^ 21 ->
  to_well_formed (stored_text a r e t) = stored_text a r e t.
Proof.
  intros Hb. unfold stored_text.
  repeat first
    [ rewrite to_well_formed_quote
    | rewrite (to_well_formed_int _ _ Hb)
    | rewrite to_well_formed_cons by reflexivity ].
  reflexivity.
Qed.

(** ** C1: getValidAccessToken *)

(** C1: [getValidAccessToken] throws "Not authorized" when there is no
    record; on a record whose [expires_at] has been reached it does what
    one call of [refreshTokens] does, throws what that call throws and
    otherwise returns the access token of the refreshed record, and the
    log holds the one request of that refresh (or none, when the refresh
    threw before sending); on a record whose [expires_at] lies ahead it
    returns the stored access token and leaves the state, log of
    requests included, as it was. *)
Theorem getValidAccessToken_lazy_refresh (net : network) (st : state) :
  (tokens (self st) = VNull ->
   getValidAccessToken net st = (Throw NOT_AUTHORIZED, st))
  /\
  (forall props e,
      tokens (self st) = VObj props ->
      lookup (lit "expires_at") props = VNum (Int e) ->
      e <= now (env st) ->
      forall r st', refreshTokens net st = (r, st') ->
        getValidAccessToken net st =
          (match r with
           | Ok _ => get (tokens (self st')) (lit "access_token")
           | Throw err => Throw err
           end, st')
        /\ ((exists req, sent (env st') = req :: sent (env st)) \/
            (sent (env st') = sent (env st) /\ exists err, r = Throw err)))
  /\
  (forall props e,
      tokens (self st) = VObj props ->
      lookup (lit "expires_at") props = VNum (Int e) ->
      now (env st) < e ->
      getValidAccessToken net st = (Ok (lookup (lit "access_token") props), st)).
Proof.
  split; [|split].
  - intros Ht. rewrite getValidAccessToken_steps, Ht. reflexivity.
  - intros props e Ht He Hle r st' Hr.
    rewrite getValidAccessToken_steps, isTokenExpired_steps. cbv zeta.
    rewrite Ht. simpl. rewrite He. unfold ge. simpl.
    apply Z.leb_le in Hle. rewrite Hle. rewrite Hr.
    split; [destruct r; reflexivity|].
    rewrite refresh_steps in Hr. cbv zeta in Hr.
    destruct (truthy _);
      [|inversion Hr; subst; right; split; [reflexivity|eexists; reflexivity]].
    destruct (to_string _) as [text|err];
      [|inversion Hr; subst; right; split; [reflexivity|eexists; reflexivity]].
    left. exists (refresh_request (self st) text).
    destruct (outcome _) as [|status content];
      [inversion Hr; subst; reflexivity|].
    destruct (ok status).
    + destruct content as [|body [data|]]; inversion Hr; subst;
        try rewrite saved_sent; reflexivity.
    + destruct content as [|body data]; inversion Hr; subst; reflexivity.
  - intros props e Ht He Hlt.
    rewrite getValidAccessToken_steps, isTokenExpired_steps. cbv zeta.
    rewrite Ht. simpl. rewrite He. unfold ge. simpl.
    apply Z.leb_gt in Hlt. rewrite Hlt, Ht. reflexivity.
Qed.

(** The three cases at work: no record; A1/R1 expired, refreshed into A2
    by one request; A1/R1 not yet expired. *)
Lemma getValidAccessToken_lazy_refresh_witness :
  getValidAccessToken unreachable unauthorized
    = (Throw NOT_AUTHORIZED, unauthorized)
  /\ (exists st',
        getValidAccessToken (granted (lit "A2") None) expired_A1
          = (Ok (VStr (lit "A2")), st')
        /\ List.length (sent (env st')) = 1%nat)
  /\ getValidAccessToken unreachable fresh_A1
       = (Ok (VStr (lit "A1")), fresh_A1).
Proof.
  split; [|split].
  - apply (proj1 (getValidAccessToken_lazy_refresh unreachable unauthorized)).
    reflexivity.
  - destruct (refreshTokens (granted (lit "A2") None) expired_A1)
      as [r st'] eqn:Hr.
    exists st'.
    destruct (proj1 (proj2 (getValidAccessToken_lazy_refresh
                              (granted (lit "A2") None) expired_A1))
                fields_A1 3540000 eq_refl eq_refl ltac:(simpl; lia) r st' Hr)
      as [Hg _].
    rewrite Hg. vm_compute in Hr. inversion Hr; subst. split; reflexivity.
  - exact (proj2 (proj2 (getValidAccessToken_lazy_refresh unreachable fresh_A1))
             fields_A1 3540000 eq_refl eq_refl ltac:(simpl; lia)).
Defined.

(** ** C2: a rejected refresh destroys the record *)

(** C2, as claimed, fails when the status of the rejection arrives and
    its body does not: A1/R1, expired and on file, refreshed against a
    server that answers 401 over a connection lost before the body is
    read, throws the error of the platform, which is no "Token refresh
    failed" error, and keeps the record, in memory and on file;
    [hasValidTokens] is still true. *)
Lemma rejected_refresh_without_body_keeps_record :
  exists st',
    refreshTokens (cut_off 401) expired_A1_on_file = (Throw BodyFailed, st')
    /\ (forall req, outcome (cut_off 401 req) = Response 401 Lost)
    /\ ok 401 = false
    /\ (forall text, BodyFailed <> REFRESH_FAILED 401 text)
    /\ tokens (self st') = record_A1
    /\ file (env st') = file (env expired_A1_on_file)
    /\ file (env st') <> None
    /\ hasValidTokens st' = (Ok true, st').
Proof.
  eexists. split; [vm_compute; reflexivity|].
  split; [reflexivity|].
  split; [reflexivity|]. split; [intros text; discriminate|].
  split; [reflexivity|]. split; [reflexivity|].
  split; [vm_compute; discriminate|reflexivity].
Qed.

(** C2, amended: when the request of [refreshTokens] is answered with a
    status outside 200..299 and the body of the response is read, the
    call throws "Token refresh failed (status): body. Please
    re-authorize.", the record in memory is null and the file is removed;
    from then on [hasValidTokens] returns false after any calls among
    which no authorization succeeds, a restart of the process included.
    When the body cannot be read, the call throws the error of the
    platform instead, and the manager, its record included, and the file
    are as before. *)
Theorem refresh_rejection_destroys_record (net : network) (st st' : state)
  (r : result unit) (req : request) (status : Z) (content : payload) :
  refreshTokens net st = (r, st') ->
  sent (env st') = req :: sent (env st) ->
  outcome (net req) = Response status content ->
  ok status = false ->
  match content with
  | Body text _ =>
      r = Throw (REFRESH_FAILED status text)
      /\ tokens (self st') = VNull
      /\ file (env st') = None
      /\ forall calls, no_authorization calls st' = true ->
           hasValidTokens (run calls st') = (Ok false, run calls st')
  | Lost =>
      r = Throw BodyFailed
      /\ self st' = self st
      /\ file (env st') = file (env st)
      /\ hasValidTokens st' = (Ok true, st')
  end.
Proof.
  intros Hr Hs Ho Hok.
  destruct (refresh_request_sent _ _ _ _ _ Hr Hs) as (rt & Ht & Hx & Hreq).
  rewrite refresh_steps in Hr. cbv zeta in Hr.
  rewrite Ht, Hx, <- Hreq, Ho, Hok in Hr.
  destruct content as [|text data]; inversion Hr; subst r st'; clear Hr.
  - split; [reflexivity|]. split; [reflexivity|]. split; [reflexivity|].
    unfold hasValidTokens, bind, this_tokens, ret. cbn [answered self].
    destruct (tokens (self st)); try reflexivity. discriminate.
  - split; [reflexivity|]. split; [reflexivity|]. split; [reflexivity|].
    intros calls Hn.
    match goal with
    | |- hasValidTokens (run calls ?s) = _ =>
        destruct (run_keeps_destroyed calls s (conj eq_refl eq_refl) Hn)
          as [Hnull _]
    end.
    unfold hasValidTokens, bind, this_tokens, ret. rewrite Hnull. reflexivity.
Qed.

(** A1/R1, expired and on file, refreshed against a server that answers
    401: the record is gone, and stays gone through a failed access, a
    failed exchange and a restart. *)
Lemma refresh_rejection_destroys_record_witness :
  exists st',
    refreshTokens (rejected 401) expired_A1_on_file
      = (Throw (REFRESH_FAILED 401 (lit "invalid_grant")), st')
    /\ tokens (self st') = VNull
    /\ file (env st') = None
    /\ fst (hasValidTokens
              (run [GetValidAccessToken (granted (lit "A2") None);
                    ExchangeCodeForTokens (rejected 400) (lit "code");
                    Construct (lit "my-client") (lit "s3cret");
                    Wait 5000] st')) = Ok false.
Proof.
  destruct (refreshTokens (rejected 401) expired_A1_on_file) as [r st'] eqn:Hr.
  exists st'.
  assert (Hs : sent (env st')
               = refresh_request (self expired_A1_on_file) (lit "R1")
                   :: sent (env expired_A1_on_file)).
  { vm_compute in Hr. inversion Hr; subst. reflexivity. }
  destruct (refresh_rejection_destroys_record
              (rejected 401) expired_A1_on_file st' r _ 401
              (Body (lit "invalid_grant") None) Hr Hs eq_refl eq_refl)
    as (H1 & H2 & H3 & H4).
  rewrite H1. split; [reflexivity|]. split; [exact H2|]. split; [exact H3|].
  rewrite H4; [reflexivity|].
  vm_compute in Hr. inversion Hr; subst. vm_compute. reflexivity.
Defined.

(** ** C6: a rejected exchange changes nothing *)

(** C6, as claimed, fails when the status of the rejection arrives and
    its body does not: an exchange answered with 400 over a connection
    lost before the body is read throws the error of the platform, which
    carries neither the status nor a body. *)
Lemma rejected_exchange_without_body :
  exists st',
    exchangeCodeForTokens (cut_off 400) (lit "bad-code") unauthorized
      = (Throw BodyFailed, st')
    /\ (forall req, outcome (cut_off 400 req) = Response 400 Lost)
    /\ ok 400 = false
    /\ forall status text, BodyFailed <> EXCHANGE_FAILED status text.
Proof.
  eexists. split; [vm_compute; reflexivity|].
  split; [reflexivity|].
  split; [reflexivity|]. intros status text. discriminate.
Qed.

(** C6, amended: when the request of [exchangeCodeForTokens] is answered
    with a status outside 200..299, the call throws "Token exchange
    failed (status): body" if the body of the response is read, and the
    error of the platform if it cannot be read; either way the manager,
    its record included, and the file are as before, so a manager
    without a record is still without one. *)
Theorem exchange_rejection_keeps_state (net : network) (code : jstring)
  (st st' : state) (r : result unit) (req : request) (status : Z)
  (content : payload) :
  exchangeCodeForTokens net code st = (r, st') ->
  sent (env st') = req :: sent (env st) ->
  outcome (net req) = Response status content ->
  ok status = false ->
  r = Throw (match content with
             | Body text _ => EXCHANGE_FAILED status text
             | Lost => BodyFailed
             end)
  /\ self st' = self st
  /\ file (env st') = file (env st)
  /\ (tokens (self st) = VNull -> hasValidTokens st' = (Ok false, st')).
Proof.
  intros Hr Hs Ho Hok.
  rewrite (exchange_request_sent _ _ _ _ _ Hr) in Hs. inversion Hs as [Hreq].
  rewrite exchange_steps in Hr. cbv zeta in Hr.
  rewrite Hreq, Ho, Hok in Hr.
  destruct content as [|text data]; inversion Hr; subst r st'; clear Hr;
    (split; [reflexivity|]; split; [reflexivity|]; split; [reflexivity|];
     intros Hnull; unfold hasValidTokens, bind, this_tokens, ret; simpl;
     rewrite Hnull; reflexivity).
Qed.

(** An unauthorized manager exchanging a code the server answers with
    400. *)
Lemma exchange_rejection_keeps_state_witness :
  exists st',
    exchangeCodeForTokens (rejected 400) (lit "bad-code") unauthorized
      = (Throw (EXCHANGE_FAILED 400 (lit "invalid_grant")), st')
    /\ self st' = self unauthorized
    /\ file (env st') = None
    /\ hasValidTokens st' = (Ok false, st').
Proof.
  destruct (exchangeCodeForTokens (rejected 400) (lit "bad-code") unauthorized)
    as [r st'] eqn:Hr.
  exists st'.
  destruct (exchange_rejection_keeps_state
              (rejected 400) (lit "bad-code") unauthorized st' r _ 400
              (Body (lit "invalid_grant") None) Hr
              (exchange_request_sent _ _ _ _ _ Hr) eq_refl eq_refl)
    as (H1 & H2 & H3 & H4).
  rewrite H1. split; [reflexivity|]. split; [exact H2|].
  split; [exact H3|]. apply H4. reflexivity.
Defined.

(** ** C7: a network failure leaves the record alone *)

(** C7: when the request of an exchange or of a refresh gets no response
    (the request fails, or the connection is lost before the body is
    read), the call throws the platform's own error, which is none of the
    errors reporting a rejection, and the manager, its record included,
    and the file are as before. *)
Theorem network_failure_keeps_record (net : network) (st st' : state)
  (r : result unit) (req : request) :
  (exists code, exchangeCodeForTokens net code st = (r, st'))
  \/ refreshTokens net st = (r, st') ->
  sent (env st') = req :: sent (env st) ->
  no_response (outcome (net req)) ->
  (r = Throw FetchFailed \/ r = Throw BodyFailed)
  /\ ~ is_rejection r
  /\ self st' = self st
  /\ file (env st') = file (env st).
Proof.
  intros Hcall Hs Hno.
  assert (H : (r = Throw FetchFailed \/ r = Throw BodyFailed)
              /\ self st' = self st /\ file (env st') = file (env st)).
  { destruct Hcall as [[code Hr] | Hr].
    - rewrite (exchange_request_sent _ _ _ _ _ Hr) in Hs.
      inversion Hs as [Hreq].
      rewrite exchange_steps in Hr. cbv zeta in Hr. rewrite Hreq in Hr.
      destruct (outcome (net req)) as [|status [|text data]];
        [| |destruct Hno].
      + inversion Hr; subst; auto.
      + destruct (ok status); inversion Hr; subst; auto.
    - destruct (refresh_request_sent _ _ _ _ _ Hr Hs) as (rt & Ht & Hx & Hreq).
      rewrite refresh_steps in Hr. cbv zeta in Hr.
      rewrite Ht, Hx, <- Hreq in Hr.
      destruct (outcome (net req)) as [|status [|text data]];
        [| |destruct Hno].
      + inversion Hr; subst; auto.
      + destruct (ok status); inversion Hr; subst; auto. }
  destruct H as (Hr & Hself & Hfile).
  split; [exact Hr|]. split; [|split; assumption].
  intros (status & text & [Hx | Hx]); destruct Hr as [Hr | Hr];
    rewrite Hr in Hx; discriminate.
Qed.

(** A1/R1 on file, expired, refreshed while the server cannot be
    reached. *)
Lemma network_failure_keeps_record_witness :
  exists st',
    refreshTokens unreachable expired_A1_on_file = (Throw FetchFailed, st')
    /\ self st' = self expired_A1_on_file
    /\ file (env st') = file (env expired_A1_on_file).
Proof.
  destruct (refreshTokens unreachable expired_A1_on_file) as [r st'] eqn:Hr.
  exists st'.
  assert (Hs : sent (env st')
               = refresh_request (self expired_A1_on_file) (lit "R1")
                   :: sent (env expired_A1_on_file)).
  { vm_compute in Hr. inversion Hr; subst. reflexivity. }
  destruct (network_failure_keeps_record
              unreachable expired_A1_on_file st' r _ (or_intror Hr) Hs I)
    as (_ & _ & H3 & H4).
  split; [|split; assumption].
  vm_compute in Hr. inversion Hr; subst. reflexivity.
Defined.

(** ** C3: the expiry margin *)

(** C3: after a successful exchange and after a successful refresh, the
    stored [expires_at] is the reading of the clock at which the record
    was built (the instant the response had arrived), plus 1000 times
    the [expires_in] of the response, minus 60000 milliseconds; this for
    the readings and lifetimes on which the doubles of the code compute
    as integers do, the instant, the lifetime in milliseconds, their sum
    and the result being all of magnitude at most 2^53. *)
Theorem expiry_margin (net : network) (st st' : state) :
  (exists code, exchangeCodeForTokens net code st = (Ok tt, st'))
  \/ refreshTokens net st = (Ok tt, st') ->
  exists req status text data,
    sent (env st') = req :: sent (env st)
    /\ outcome (net req) = Response status (Body text (Some data))
    /\ ok status = true
    /\ now (env st') = now (env st) + took (net req)
    /\ let issued_at := now (env st') in
       let lifetime := expires_in data * 1000 in
       safe issued_at -> safe lifetime ->
       safe (issued_at + lifetime) -> safe (issued_at + lifetime - 60000) ->
       exists expires_at,
         get (tokens (self st')) (lit "expires_at")
           = Ok (VNum (Int expires_at))
         /\ expires_at = issued_at + lifetime - 60000
         /\ issued_at + lifetime - 61000 <= expires_at
              <= issued_at + lifetime - 60000.
Proof.
  intros [[code Hr] | Hr].
  - rewrite exchange_steps in Hr. cbv zeta in Hr.
    set (req := exchange_request (self st) code) in *.
    destruct (outcome (net req)) as [|status content] eqn:Ho; [discriminate|].
    destruct (ok status) eqn:Hok.
    + destruct content as [|text [data|]]; try discriminate.
      exists req, status, text, data.
      inversion Hr; subst st'; clear Hr.
      rewrite saved_sent, saved_now, saved_self.
      split; [reflexivity|]. split; [exact Ho|]. split; [exact Hok|].
      split; [reflexivity|]. intros issued_at lifetime _ _ _ _.
      exists (issued_at + lifetime - 60000).
      split; [reflexivity|]. split; [reflexivity|]. lia.
    + destruct content; discriminate.
  - rewrite refresh_steps in Hr. cbv zeta in Hr.
    destruct (truthy _); [|discriminate].
    destruct (to_string _) as [rt|err]; [|discriminate].
    set (req := refresh_request (self st) rt) in *.
    destruct (outcome (net req)) as [|status content] eqn:Ho; [discriminate|].
    destruct (ok status) eqn:Hok.
    + destruct content as [|text [data|]]; try discriminate.
      exists req, status, text, data.
      inversion Hr; subst st'; clear Hr.
      rewrite saved_sent, saved_now, saved_self.
      split; [reflexivity|]. split; [exact Ho|]. split; [exact Hok|].
      split; [reflexivity|]. intros issued_at lifetime _ _ _ _.
      exists (issued_at + lifetime - 60000).
      split; [reflexivity|]. split; [reflexivity|]. lia.
    + destruct content; discriminate.
Qed.

(** The scenario of the specification: an exchange at the instant 0 with
    [expires_in] 3600 stores 3540000; a refresh at 3600000 stores
    7140000. *)
Lemma expiry_margin_witness :
  (exists st',
     exchangeCodeForTokens (granted (lit "A1") (Some (lit "R1"))) (lit "code")
       unauthorized = (Ok tt, st')
     /\ safe 0 /\ safe (3600 * 1000) /\ safe (0 + 3600 * 1000 - 60000)
     /\ get (tokens (self st')) (lit "expires_at") = Ok (VNum (Int 3540000)))
  /\
  (exists st',
     refreshTokens (granted (lit "A2") None) expired_A1 = (Ok tt, st')
     /\ safe 3600000 /\ safe (3600000 + 3600 * 1000 - 60000)
     /\ get (tokens (self st')) (lit "expires_at") = Ok (VNum (Int 7140000))).
Proof.
  assert (Hsafe : forall z, Z.abs z <= 2 ^ 53 -> safe z) by (intros z H; exact H).
  split.
  - destruct (exchangeCodeForTokens (granted (lit "A1") (Some (lit "R1")))
                (lit "code") unauthorized) as [r st'] eqn:Hr.
    assert (Hok : r = Ok tt) by (vm_compute in Hr; inversion Hr; reflexivity).
    subst r. exists st'. split; [reflexivity|].
    split; [apply Hsafe; simpl; lia|]. split; [apply Hsafe; simpl; lia|].
    split; [apply Hsafe; simpl; lia|].
    destruct (expiry_margin _ _ _ (or_introl (ex_intro _ _ Hr)))
      as (req & status & text & data & _ & Ho & _ & Hnow & Hm).
    vm_compute in Ho. inversion Ho; subst data. clear Ho.
    vm_compute in Hr. inversion Hr; subst st'. clear Hr.
    destruct Hm as (e & Hget & He & _);
      try (apply Hsafe; vm_compute; discriminate).
    rewrite Hget, He. reflexivity.
  - destruct (refreshTokens (granted (lit "A2") None) expired_A1)
      as [r st'] eqn:Hr.
    assert (Hok : r = Ok tt) by (vm_compute in Hr; inversion Hr; reflexivity).
    subst r. exists st'. split; [reflexivity|].
    split; [apply Hsafe; simpl; lia|]. split; [apply Hsafe; simpl; lia|].
    destruct (expiry_margin _ _ _ (or_intror Hr))
      as (req & status & text & data & _ & Ho & _ & Hnow & Hm).
    vm_compute in Ho. inversion Ho; subst data. clear Ho.
    vm_compute in Hr. inversion Hr; subst st'. clear Hr.
    destruct Hm as (e & Hget & He & _);
      try (apply Hsafe; vm_compute; discriminate).
    rewrite Hget, He. reflexivity.
Defined.

(** ** C4: the refresh token across a refresh *)

(** C4, as claimed, fails when the response carries an empty
    [refresh_token]: A1/R1 refreshed with a response whose [access_token]
    is A2, whose [refresh_token] is the empty string and whose
    [expires_in] is 3600 keeps R1, not the token of the response. *)
Lemma refresh_empty_token_not_stored :
  exists st',
    refreshTokens (granted (lit "A2") (Some [])) expired_A1 = (Ok tt, st')
    /\ get (tokens (self st')) (lit "refresh_token") = Ok (VStr (lit "R1"))
    /\ get (tokens (self st')) (lit "refresh_token") <> Ok (VStr []).
Proof.
  eexists. split; [vm_compute; reflexivity|].
  split; [reflexivity|]. vm_compute. discriminate.
Qed.

(** C4, amended: after a successful refresh the record takes
    [access_token], [expires_at] and [token_type] from the response; its
    [refresh_token] is the one of the response when that is a non-empty
    string, and the one stored before when the response has none or an
    empty one; and this record is what the file holds. *)
Theorem refresh_token_retention (net : network) (st st' : state) :
  refreshTokens net st = (Ok tt, st') ->
  exists req status text data,
    sent (env st') = req :: sent (env st)
    /\ outcome (net req) = Response status (Body text (Some data))
    /\ get (tokens (self st')) (lit "access_token")
         = Ok (VStr (access_token data))
    /\ get (tokens (self st')) (lit "token_type") = Ok (VStr (token_type data))
    /\ get (tokens (self st')) (lit "expires_at")
         = Ok (VNum (Int (now (env st') + expires_in data * 1000 - 60000)))
    /\ (refresh_token data = None \/ refresh_token data = Some [] ->
        get (tokens (self st')) (lit "refresh_token")
          = get (tokens (self st)) (lit "refresh_token"))
    /\ (forall c r, refresh_token data = Some (c :: r) ->
        get (tokens (self st')) (lit "refresh_token") = Ok (VStr (c :: r)))
    /\ exists written,
         JSON.stringify (tokens (self st')) = Some written
         /\ file (env st') = Some (to_well_formed written).
Proof.
  intros Hr. rewrite refresh_steps in Hr. cbv zeta in Hr.
  destruct (truthy _) eqn:Ht; [|discriminate].
  destruct (to_string _) as [rt|err]; [|discriminate].
  set (req := refresh_request (self st) rt) in *.
  destruct (outcome (net req)) as [|status content] eqn:Ho; [discriminate|].
  destruct (ok status) eqn:Hok; [|destruct content; discriminate].
  destruct content as [|text [data|]]; try discriminate.
  exists req, status, text, data.
  inversion Hr; subst st'; clear Hr.
  rewrite saved_sent, saved_now, saved_self.
  split; [reflexivity|]. split; [exact Ho|].
  split; [reflexivity|]. split; [reflexivity|]. split; [reflexivity|].
  split; [|split].
  - rewrite (truthy_refresh_token _ Ht).
    intros [Hd | Hd]; simpl; rewrite Hd; reflexivity.
  - intros c r Hd. simpl. rewrite Hd. reflexivity.
  - match goal with
    | |- context [saved ?s] =>
        destruct (saved_file _ s eq_refl) as (written & Hw & Hf)
    end.
    exists written. split; assumption.
Qed.

(** The scenario of the specification: A1/R1 refreshed with
    [{access_token: "A2", expires_in: 3600}] becomes A2/R1. *)
Lemma refresh_token_retention_witness :
  exists st',
    refreshTokens (granted (lit "A2") None) expired_A1 = (Ok tt, st')
    /\ get (tokens (self st')) (lit "access_token") = Ok (VStr (lit "A2"))
    /\ get (tokens (self st')) (lit "refresh_token") = Ok (VStr (lit "R1")).
Proof.
  destruct (refreshTokens (granted (lit "A2") None) expired_A1)
    as [r st'] eqn:Hr.
  assert (Hok : r = Ok tt) by (vm_compute in Hr; inversion Hr; reflexivity).
  subst r. exists st'. split; [reflexivity|].
  destruct (refresh_token_retention _ _ _ Hr)
    as (req & status & text & data & _ & Ho & Ha & _ & _ & Hkeep & _).
  vm_compute in Ho. inversion Ho; subst data.
  split; [exact Ha|]. rewrite Hkeep; [reflexivity|left; reflexivity].
Defined.

(** ** C9: the authorization URL *)

(** C9: [getAuthorizationUrl] returns, in every state and leaving the
    state (log of requests included) as it was, the authorization
    endpoint followed by the three parameters [response_type=code],
    [client_id] (form-encoded) and the fixed out-of-band [redirect_uri];
    the result depends on the client id alone, and the encoded client id
    holds no [&] and no [=], so the query has these three parameters and
    no other. *)
Theorem getAuthorizationUrl_pure (st : state) :
  getAuthorizationUrl st =
    (Ok (lit "https://api.sharesight.com/oauth2/authorize"
         ++ lit "?response_type=code"
         ++ lit "&client_id=" ++ Url.form_encode (clientId (self st))
         ++ lit "&redirect_uri=urn%3Aietf%3Awg%3Aoauth%3A2.0%3Aoob"), st)
  /\ (forall st2, clientId (self st2) = clientId (self st) ->
        fst (getAuthorizationUrl st2) = fst (getAuthorizationUrl st))
  /\ (forall c, In c (Url.form_encode (clientId (self st))) ->
        c <> 38%N /\ c <> 61%N).
Proof.
  split; [|split].
  - reflexivity.
  - intros st2 H. unfold getAuthorizationUrl. simpl. rewrite H. reflexivity.
  - intros c. apply form_encode_plain.
Qed.

(** ** C10: a refresh needs a refresh token *)

(** C10: [refreshTokens] throws "No refresh token available" when there
    is no record and also when the record's [refresh_token] is the empty
    string (in general, whenever [this.tokens?.refresh_token] is falsy);
    no request is made and the state is left as it was. *)
Theorem refresh_needs_truthy_refresh_token (net : network) (st : state) :
  tokens (self st) = VNull \/
  (exists props, tokens (self st) = VObj props /\
                 lookup (lit "refresh_token") props = VStr []) \/
  truthy (stored_refresh_token (tokens (self st))) = false ->
  refreshTokens net st = (Throw NO_REFRESH_TOKEN, st).
Proof.
  intros H.
  assert (Hf : truthy (stored_refresh_token (tokens (self st))) = false).
  { destruct H as [H | [(props & H & Hr) | H]].
    - rewrite H. reflexivity.
    - rewrite H. simpl. rewrite Hr. reflexivity.
    - exact H. }
  rewrite refresh_steps. cbv zeta. rewrite Hf. reflexivity.
Qed.

(** No record, and a record whose refresh token is the empty string. *)
Lemma refresh_needs_truthy_refresh_token_witness :
  refreshTokens unreachable unauthorized = (Throw NO_REFRESH_TOKEN, unauthorized)
  /\ refreshTokens unreachable expired_without_refresh
       = (Throw NO_REFRESH_TOKEN, expired_without_refresh).
Proof.
  split.
  - apply (refresh_needs_truthy_refresh_token unreachable unauthorized).
    left. reflexivity.
  - apply (refresh_needs_truthy_refresh_token unreachable expired_without_refresh).
    right. left. eexists. split; reflexivity.
Defined.

(** ** C5: loading *)

(** C5, as claimed, fails on a file that is valid JSON and lacks fields:
    with [{"access_token":"a"}] on file the new manager holds that object
    as its record, [hasValidTokens] is true and [getValidAccessToken]
    returns "a" without a request. *)
Lemma partial_record_taken_as_valid :
  exists st,
    construct (lit "my-client") (lit "s3cret") (at_time 0 (Some partial_file))
      = (Ok tt, st)
    /\ tokens (self st) = VObj [(lit "access_token", VStr (lit "a"))]
    /\ hasValidTokens st = (Ok true, st)
    /\ getValidAccessToken unreachable st = (Ok (VStr (lit "a")), st).
Proof.
  eexists. split; [vm_compute; reflexivity|].
  split; [reflexivity|]. split; vm_compute; reflexivity.
Qed.

(** C5, amended: constructing a manager, which loads the file, never
    throws and leaves the world as it was; with no file, and with a file
    whose text [JSON.parse] rejects, the manager has no record; with a
    file whose text parses, the manager holds the parsed value as its
    record whatever its fields are, and [hasValidTokens] is true for
    every parsed value other than null; it is false when the manager has
    no record. *)
Theorem load_never_throws (id secret : jstring) (w : world) :
  exists st,
    construct id secret w = (Ok tt, st)
    /\ env st = w
    /\ (file w = None -> tokens (self st) = VNull)
    /\ (forall text e, file w = Some text -> JSON.parse text = Throw e ->
          tokens (self st) = VNull)
    /\ (forall text v, file w = Some text -> JSON.parse text = Ok v ->
          tokens (self st) = v
          /\ (v <> VNull -> hasValidTokens st = (Ok true, st)))
    /\ (tokens (self st) = VNull -> hasValidTokens st = (Ok false, st)).
Proof.
  rewrite construct_steps. eexists. split; [reflexivity|].
  cbn [self env tokens].
  split; [reflexivity|]. split; [intros H; rewrite H; reflexivity|].
  split; [intros text e Hf Hp; rewrite Hf, Hp; reflexivity|].
  split.
  - intros text v Hf Hp. rewrite Hf, Hp. split; [reflexivity|].
    intros Hv. unfold hasValidTokens, bind, this_tokens, ret.
    cbn [self tokens].
    destruct v; try reflexivity. elim Hv. reflexivity.
  - intros Hn. unfold hasValidTokens, bind, this_tokens, ret.
    cbn [self tokens]. rewrite Hn. reflexivity.
Qed.

(** No file, a file that is not JSON, and a write cut short: no record
    in each case; a file that parses and lacks three fields: a record
    that counts as valid. *)
Lemma load_never_throws_witness :
  (exists st, construct (lit "my-client") (lit "s3cret") (at_time 0 None)
              = (Ok tt, st) /\ tokens (self st) = VNull)
  /\ (exists st, construct (lit "my-client") (lit "s3cret")
                   (at_time 0 (Some partial_file)) = (Ok tt, st)
                 /\ hasValidTokens st = (Ok true, st))
  /\ (exists st, construct (lit "my-client") (lit "s3cret")
                   (at_time 0 (Some garbage_file)) = (Ok tt, st)
                 /\ tokens (self st) = VNull)
  /\ (exists st, construct (lit "my-client") (lit "s3cret")
                   (at_time 0 (Some truncated_file)) = (Ok tt, st)
                 /\ tokens (self st) = VNull).
Proof.
  split; [|split; [|split]].
  - destruct (load_never_throws (lit "my-client") (lit "s3cret") (at_time 0 None))
      as (st & Hc & _ & Hnone & _).
    exists st. split; [exact Hc|]. apply Hnone. reflexivity.
  - destruct (load_never_throws (lit "my-client") (lit "s3cret")
                (at_time 0 (Some partial_file)))
      as (st & Hc & _ & _ & _ & Hparsed & _).
    exists st. split; [exact Hc|].
    apply (Hparsed partial_file (VObj [(lit "access_token", VStr (lit "a"))]));
      [reflexivity|vm_compute; reflexivity|discriminate].
  - destruct (load_never_throws (lit "my-client") (lit "s3cret")
                (at_time 0 (Some garbage_file)))
      as (st & Hc & _ & _ & Hbad & _).
    exists st. split; [exact Hc|].
    apply (Hbad garbage_file SyntaxError); [reflexivity|vm_compute; reflexivity].
  - destruct (load_never_throws (lit "my-client") (lit "s3cret")
                (at_time 0 (Some truncated_file)))
      as (st & Hc & _ & _ & Hbad & _).
    exists st. split; [exact Hc|].
    apply (Hbad truncated_file SyntaxError); [reflexivity|vm_compute; reflexivity].
Defined.

(** ** C8: save, then load *)

(** C8: a record of three strings and an integer [expires_at] of
    magnitude below 10^21 (which covers every instant of [Date.now()]),
    saved by [saveTokens] and loaded by a new manager, is the record the
    new manager holds: all four fields come back unchanged. *)
Theorem save_load_round_trip (a r t : jstring) (e : Z) (st : state)
  (id secret : jstring) :
  Z.abs e < 10 ^ 21 ->
  tokens (self st) = stored (VStr a) (VStr r) e (VStr t) ->
  exists st1 st2,
    saveTokens st = (Ok tt, st1)
    /\ file (env st1) = Some (stored_text a r e t)
    /\ construct id secret (env st1) = (Ok tt, st2)
    /\ tokens (self st2) = stored (VStr a) (VStr r) e (VStr t).
Proof.
  intros Hb Ht.
  exists (saved st).
  assert (Hfile : file (env (saved st)) = Some (stored_text a r e t)).
  { unfold saved. rewrite Ht, stringify_stored.
    cbn [with_file env file]. rewrite (to_well_formed_stored_text _ _ _ _ Hb).
    reflexivity. }
  eexists.
  split; [exact (saveTokens_object _ st Ht)|].
  split; [exact Hfile|]. split; [apply construct_steps|].
  cbn [self tokens]. rewrite Hfile, (parse_stored_text a r e t Hb).
  reflexivity.
Qed.

(** The record A1/R1, with a refresh token made of a quote, a backslash,
    a line feed, a surrogate pair and a lone surrogate. *)
Lemma save_load_round_trip_witness :
  let odd := [34; 92; 10; 55357; 56832; 55357]%N in
  let st := {| self := manager_with
                         (stored (VStr (lit "A1")) (VStr odd) 3540000
                                 (VStr (lit "Bearer")));
               env := at_time 0 None |} in
  exists st1 st2,
    saveTokens st = (Ok tt, st1)
    /\ construct (lit "my-client") (lit "s3cret") (env st1) = (Ok tt, st2)
    /\ tokens (self st2) = tokens (self st).
Proof.
  intros odd st.
  destruct (save_load_round_trip (lit "A1") odd (lit "Bearer") 3540000 st
              (lit "my-client") (lit "s3cret")
              ltac:(simpl; lia) eq_refl)
    as (st1 & st2 & Hs & _ & Hc & Ht).
  exists st1, st2. split; [exact Hs|]. split; [exact Hc|]. exact Ht.
Defined.

(** * Further properties of the manager and of its callers *)

(** ** Trimming *)

Lemma trim_left_spaces (ws rest : jstring) :
  forallb is_str_space ws = true -> trim_left (ws ++ rest) = trim_left rest.
Proof.
  induction ws as [|c ws IH]; [reflexivity|].
  cbn [forallb app trim_left]. intros H.
  apply andb_true_iff in H. destruct H as [Hc Hws].
  rewrite Hc. exact (IH Hws).
Qed.

Lemma trim_left_all_spaces (ws : jstring) :
  forallb is_str_space ws = true -> trim_left ws = [].
Proof.
  intros H. rewrite <- (List.app_nil_r ws), (trim_left_spaces _ _ H). reflexivity.
Qed.

Lemma trim_left_app (s rest : jstring) :
  trim_left s <> [] -> trim_left (s ++ rest) = trim_left s ++ rest.
Proof.
  induction s as [|c s IH]; [intros H; elim H; reflexivity|].
  cbn [app trim_left]. destruct (is_str_space c); [exact IH|reflexivity].
Qed.

Lemma trim_left_head (s : jstring) :
  match trim_left s with
  | [] => forallb is_str_space s = true
  | c :: _ => is_str_space c = false
  end.
Proof.
  induction s as [|c s IH]; [reflexivity|].
  cbn [trim_left forallb]. destruct (is_str_space c) eqn:Hc; [|exact Hc].
  destruct (trim_left s); [exact IH|exact IH].
Qed.

Lemma trim_left_fixed (c : N) (s : jstring) :
  is_str_space c = false -> trim_left (c :: s) = c :: s.
Proof. intros H. cbn [trim_left]. rewrite H. reflexivity. Qed.

(** White space around a text does not survive [trim]. *)
Lemma trim_padded (ws1 s ws2 : jstring) :
  forallb is_str_space ws1 = true -> forallb is_str_space ws2 = true ->
  trim (ws1 ++ s ++ ws2) = trim s.
Proof.
  intros H1 H2. unfold trim. rewrite (trim_left_spaces _ _ H1).
  pose proof (trim_left_head s) as Hs.
  destruct (trim_left s) as [|c t] eqn:Ht.
  - rewrite (trim_left_spaces _ _ Hs), (trim_left_all_spaces _ H2). reflexivity.
  - rewrite trim_left_app by (rewrite Ht; discriminate).
    rewrite Ht, rev_app_distr.
    rewrite trim_left_spaces; [reflexivity|].
    rewrite forallb_forall in *. intros x Hx. apply H2, in_rev, Hx.
Qed.

Lemma trim_left_last (s : jstring) (c : N) :
  is_str_space c = false -> trim_left (s ++ [c]) = trim_left s ++ [c].
Proof.
  intros Hc. induction s as [|d s IH]; [exact (trim_left_fixed c [] Hc)|].
  cbn [app trim_left]. destruct (is_str_space d); [exact IH|reflexivity].
Qed.

Lemma trim_left_idempotent (s : jstring) :
  trim_left (trim_left s) = trim_left s.
Proof.
  pose proof (trim_left_head s) as Hs.
  destruct (trim_left s) as [|c t]; [reflexivity|].
  exact (trim_left_fixed _ _ Hs).
Qed.

(** Trimming a trimmed text changes nothing. *)
Lemma trim_idempotent (s : jstring) : trim (trim s) = trim s.
Proof.
  unfold trim.
  pose proof (trim_left_head s) as Hs.
  destruct (trim_left s) as [|c t]; [reflexivity|].
  cbn [rev]. rewrite (trim_left_last _ _ Hs), rev_app_distr. cbn [rev app].
  rewrite (trim_left_fixed _ _ Hs). cbn [rev]. rewrite rev_involutive.
  rewrite (trim_left_last _ _ Hs), trim_left_idempotent.
  rewrite rev_app_distr. reflexivity.
Qed.

Import Process Cases.

(** ** X1: the interactive flow and the typed line *)

(** X1: [runAuthorizationFlow] exchanges the typed line without the white
    space around it; a line of white space only is not refused: it is
    exchanged as the empty code, by a request to the token endpoint. *)
Theorem runAuthorizationFlow_trims (net : network) (ws1 code ws2 : jstring)
  (st : state) :
  forallb is_str_space ws1 = true ->
  forallb is_str_space ws2 = true ->
  runAuthorizationFlow net (ws1 ++ code ++ ws2) st
    = exchangeCodeForTokens net (trim code) st
  /\ (forallb is_str_space code = true ->
      sent (env (snd (runAuthorizationFlow net (ws1 ++ code ++ ws2) st)))
        = exchange_request (self st) [] :: sent (env st)).
Proof.
  intros H1 H2.
  assert (Hflow : runAuthorizationFlow net (ws1 ++ code ++ ws2) st
                  = exchangeCodeForTokens net (trim code) st).
  { unfold runAuthorizationFlow, bind, getAuthorizationUrl.
    rewrite (trim_padded _ _ _ H1 H2). reflexivity. }
  split; [exact Hflow|].
  intros Hc. rewrite Hflow.
  assert (Ht : trim code = []).
  { unfold trim. rewrite (trim_left_all_spaces _ Hc). reflexivity. }
  rewrite Ht.
  destruct (exchangeCodeForTokens net [] st) as [r st'] eqn:He.
  exact (exchange_request_sent _ _ _ _ _ He).
Qed.

(** A code typed with a space before and a line feed after, and a line of
    two spaces. *)
Lemma runAuthorizationFlow_trims_witness :
  runAuthorizationFlow unreachable ([32%N] ++ lit "abc" ++ [10%N]) unauthorized
    = exchangeCodeForTokens unreachable (lit "abc") unauthorized
  /\ sent (env (snd (runAuthorizationFlow unreachable
                       ([] ++ lit "  " ++ []) unauthorized)))
     = [exchange_request (self unauthorized) []].
Proof.
  split.
  - exact (proj1 (runAuthorizationFlow_trims unreachable [32%N] (lit "abc")
                    [10%N] unauthorized eq_refl eq_refl)).
  - exact (proj2 (runAuthorizationFlow_trims unreachable [] (lit "  ") []
                    unauthorized eq_refl eq_refl) eq_refl).
Defined.

(** ** X2: what was stored is what a restarted manager holds *)

(** X2: when an exchange or a refresh has succeeded and the record it
    stored has strings for its tokens and type (and an [expires_at] of
    magnitude below 10^21), a manager constructed afterwards over the
    same file holds that very record. *)
Theorem stored_record_survives_restart (net : network) (st st' : state)
  (a r t : jstring) (e : Z) (id secret : jstring) :
  (exists code, exchangeCodeForTokens net code st = (Ok tt, st'))
  \/ refreshTokens net st = (Ok tt, st') ->
  tokens (self st') = stored (VStr a) (VStr r) e (VStr t) ->
  Z.abs e < 10 ^ 21 ->
  exists st2,
    construct id secret (env st') = (Ok tt, st2)
    /\ tokens (self st2) = tokens (self st')
    /\ env st2 = env st'.
Proof.
  intros Hcall Ht Hb.
  assert (Hsaved : exists s, st' = saved s).
  { destruct Hcall as [[code Hr] | Hr].
    - rewrite exchange_steps in Hr. cbv zeta in Hr.
      destruct (outcome _) as [|status content]; [discriminate|].
      destruct (ok status); [|destruct content; discriminate].
      destruct content as [|text [data|]]; try discriminate.
      inversion Hr. eexists. reflexivity.
    - rewrite refresh_steps in Hr. cbv zeta in Hr.
      destruct (truthy _); [|discriminate].
      destruct (to_string _); [|discriminate].
      destruct (outcome _) as [|status content]; [discriminate|].
      destruct (ok status); [|destruct content; discriminate].
      destruct content as [|text [data|]]; try discriminate.
      inversion Hr. eexists. reflexivity. }
  destruct Hsaved as [s Hs].
  assert (Hfile : file (env st') = Some (stored_text a r e t)).
  { subst st'. rewrite saved_self in Ht. unfold saved.
    rewrite Ht, stringify_stored. cbn [with_file env file].
    rewrite (to_well_formed_stored_text _ _ _ _ Hb). reflexivity. }
  eexists. split; [apply construct_steps|].
  cbn [self tokens env]. rewrite Hfile, (parse_stored_text a r e t Hb), Ht.
  split; reflexivity.
Qed.

(** The exchange of the specification's scenario, then a restart. *)
Lemma stored_record_survives_restart_witness :
  exists st' st2,
    exchangeCodeForTokens (granted (lit "A1") (Some (lit "R1"))) (lit "code")
      unauthorized = (Ok tt, st')
    /\ construct (lit "my-client") (lit "s3cret") (env st') = (Ok tt, st2)
    /\ tokens (self st2) = record_A1.
Proof.
  destruct (exchangeCodeForTokens (granted (lit "A1") (Some (lit "R1")))
              (lit "code") unauthorized) as [r st'] eqn:Hr.
  assert (Hok : r = Ok tt) by (vm_compute in Hr; inversion Hr; reflexivity).
  subst r.
  assert (Ht : tokens (self st') = record_A1)
    by (vm_compute in Hr; inversion Hr; reflexivity).
  destruct (stored_record_survives_restart _ _ _ (lit "A1") (lit "R1")
              (lit "Bearer") 3540000 (lit "my-client") (lit "s3cret")
              (or_introl (ex_intro _ _ Hr)) Ht ltac:(simpl; lia))
    as (st2 & Hc & Hsame & _).
  exists st', st2. split; [reflexivity|]. split; [exact Hc|].
  rewrite Hsame. exact Ht.
Defined.

(** ** X3: a grant of a minute or less *)

Lemma margin_leb (clock seconds : Z) :
  (clock + seconds * 1000 - 60000 <=? clock) = (seconds <=? 60).
Proof.
  destruct (Z.leb_spec (clock + seconds * 1000 - 60000) clock);
    destruct (Z.leb_spec seconds 60); try reflexivity; lia.
Qed.

Lemma isTokenExpired_stored (s : state) (a r t : value) (e : Z) :
  isTokenExpired (saved (with_tokens (stored a r e t) s))
  = (Ok (e <=? now (env s)), saved (with_tokens (stored a r e t) s)).
Proof.
  rewrite isTokenExpired_steps. cbv zeta.
  rewrite saved_self, saved_now. reflexivity.
Qed.

(** X3: right after a successful exchange or refresh, [isTokenExpired]
    answers true exactly when the [expires_in] of the response is 60
    seconds or less: such a grant is expired the moment it is stored. *)
Theorem short_grant_is_expired_at_once (net : network) (st st' : state) :
  (exists code, exchangeCodeForTokens net code st = (Ok tt, st'))
  \/ refreshTokens net st = (Ok tt, st') ->
  exists req status text data,
    sent (env st') = req :: sent (env st)
    /\ outcome (net req) = Response status (Body text (Some data))
    /\ isTokenExpired st' = (Ok (expires_in data <=? 60), st').
Proof.
  intros [[code Hr] | Hr].
  - rewrite exchange_steps in Hr. cbv zeta in Hr.
    set (req := exchange_request (self st) code) in *.
    destruct (outcome (net req)) as [|status content] eqn:Ho; [discriminate|].
    destruct (ok status); [|destruct content; discriminate].
    destruct content as [|text [data|]]; try discriminate.
    exists req, status, text, data.
    inversion Hr; subst st'; clear Hr.
    rewrite saved_sent, isTokenExpired_stored.
    split; [reflexivity|]. split; [exact Ho|].
    cbn [answered env now]. rewrite margin_leb. reflexivity.
  - rewrite refresh_steps in Hr. cbv zeta in Hr.
    destruct (truthy _); [|discriminate].
    destruct (to_string _) as [rt|err]; [|discriminate].
    set (req := refresh_request (self st) rt) in *.
    destruct (outcome (net req)) as [|status content] eqn:Ho; [discriminate|].
    destruct (ok status); [|destruct content; discriminate].
    destruct content as [|text [data|]]; try discriminate.
    exists req, status, text, data.
    inversion Hr; subst st'; clear Hr.
    rewrite saved_sent, isTokenExpired_stored.
    split; [reflexivity|]. split; [exact Ho|].
    cbn [answered env now]. rewrite margin_leb. reflexivity.
Qed.

(** A grant for 60 seconds is expired at once; one for 61 is not. *)
Lemma short_grant_is_expired_at_once_witness :
  (exists st',
     exchangeCodeForTokens (granted_for 60 None) (lit "code") unauthorized
       = (Ok tt, st')
     /\ isTokenExpired st' = (Ok true, st'))
  /\ (exists st',
        exchangeCodeForTokens (granted_for 61 None) (lit "code") unauthorized
          = (Ok tt, st')
        /\ isTokenExpired st' = (Ok false, st')).
Proof.
  split.
  - destruct (exchangeCodeForTokens (granted_for 60 None) (lit "code")
                unauthorized) as [r st'] eqn:Hr.
    assert (Hok : r = Ok tt) by (vm_compute in Hr; inversion Hr; reflexivity).
    subst r. exists st'. split; [reflexivity|].
    destruct (short_grant_is_expired_at_once _ _ _
                (or_introl (ex_intro _ _ Hr)))
      as (req & status & text & data & _ & Ho & He).
    vm_compute in Ho. inversion Ho; subst data. exact He.
  - destruct (exchangeCodeForTokens (granted_for 61 None) (lit "code")
                unauthorized) as [r st'] eqn:Hr.
    assert (Hok : r = Ok tt) by (vm_compute in Hr; inversion Hr; reflexivity).
    subst r. exists st'. split; [reflexivity|].
    destruct (short_grant_is_expired_at_once _ _ _
                (or_introl (ex_intro _ _ Hr)))
      as (req & status & text & data & _ & Ho & He).
    vm_compute in Ho. inversion Ho; subst data. exact He.
Defined.

(** ** X4: a record without [expires_at] *)

Lemma lookup_missing (k : jstring) (props : list (jstring * value)) :
  has_key k props = false -> lookup k props = VUndef.
Proof.
  induction props as [|[k' v] rest IH]; [reflexivity|].
  cbn [has_key lookup]. intros H. apply orb_false_iff in H.
  destruct H as [Hk Hrest]. rewrite Hk. exact (IH Hrest).
Qed.

(** X4: a record that has no [expires_at] is never expired, whatever the
    clock reads: [getValidAccessToken] returns its [access_token] (or
    undefined, when it has none) without a request and never refreshes
    it. *)
Theorem record_without_expiry_never_expires (net : network) (st : state)
  (props : list (jstring * value)) :
  tokens (self st) = VObj props ->
  has_key (lit "expires_at") props = false ->
  isTokenExpired st = (Ok false, st)
  /\ getValidAccessToken net st = (Ok (lookup (lit "access_token") props), st).
Proof.
  intros Ht Hk.
  assert (He : isTokenExpired st = (Ok false, st)).
  { rewrite isTokenExpired_steps. cbv zeta. rewrite Ht. cbn [truthy get].
    rewrite (lookup_missing _ _ Hk). reflexivity. }
  split; [exact He|].
  rewrite getValidAccessToken_steps, He, Ht. reflexivity.
Qed.

(** An object with an access token alone, at a late hour. *)
Lemma record_without_expiry_never_expires_witness :
  let st := {| self := manager_with (VObj record_without_expiry);
               env := at_time (10 ^ 15) None |} in
  getValidAccessToken unreachable st = (Ok (VStr (lit "a")), st).
Proof.
  intros st.
  exact (proj2 (record_without_expiry_never_expires unreachable st
                  record_without_expiry eq_refl eq_refl)).
Defined.

(** ** X5: a record that is falsy and not null *)

(** X5: when the record is a falsy value other than null (the number 0,
    false or the empty string, as a file holding such JSON leaves it),
    [hasValidTokens] answers true although no token can be had:
    [getValidAccessToken] throws "Not authorized", [refreshTokens] throws
    "No refresh token available", and neither sends a request. *)
Theorem falsy_record_counts_as_valid (net : network) (st : state) :
  truthy (tokens (self st)) = false ->
  tokens (self st) <> VNull ->
  hasValidTokens st = (Ok true, st)
  /\ isTokenExpired st = (Ok true, st)
  /\ getValidAccessToken net st = (Throw NOT_AUTHORIZED, st)
  /\ refreshTokens net st = (Throw NO_REFRESH_TOKEN, st).
Proof.
  intros Hf Hn. split; [|split; [|split]].
  - unfold hasValidTokens, bind, this_tokens, ret.
    destruct (tokens (self st)); try reflexivity. elim Hn. reflexivity.
  - rewrite isTokenExpired_steps. cbv zeta. rewrite Hf. reflexivity.
  - rewrite getValidAccessToken_steps, Hf. reflexivity.
  - rewrite refresh_steps. cbv zeta.
    destruct (tokens (self st)); try discriminate; reflexivity.
Qed.

(** A file holding [0]: the manager constructed over it has this
    record. *)
Lemma falsy_record_counts_as_valid_witness :
  construct (lit "my-client") (lit "s3cret") (env holding_zero)
    = (Ok tt, holding_zero)
  /\ hasValidTokens holding_zero = (Ok true, holding_zero)
  /\ getValidAccessToken unreachable holding_zero
       = (Throw NOT_AUTHORIZED, holding_zero).
Proof.
  split; [vm_compute; reflexivity|].
  destruct (falsy_record_counts_as_valid unreachable holding_zero
              eq_refl ltac:(discriminate)) as (H1 & _ & H3 & _).
  split; assumption.
Defined.

(** ** How a call can end *)

(** An exchange sends its request; then it throws and stores nothing, or
    it stores the record of the response. *)
Lemma exchange_cases (net : network) (code : jstring) (st st' : state)
  (r : result unit) :
  exchangeCodeForTokens net code st = (r, st') ->
  let st1 := answered net (exchange_request (self st) code) st in
  ((exists e, r = Throw e) /\ st' = st1)
  \/ (r = Ok tt /\
      exists status text data,
        outcome (net (exchange_request (self st) code))
          = Response status (Body text (Some data))
        /\ st' = saved
                   (with_tokens
                      (stored (VStr (access_token data))
                              (match refresh_token data with
                               | Some x => VStr x
                               | None => VUndef
                               end)
                              (now (env st1) + expires_in data * 1000 - 60000)
                              (VStr (token_type data))) st1)).
Proof.
  intros Hr st1. rewrite exchange_steps in Hr. cbv zeta in Hr. fold st1 in Hr.
  destruct (outcome _) as [|status content] eqn:Ho.
  - left. inversion Hr. split; [eexists|]; reflexivity.
  - destruct (ok status).
    + destruct content as [|text [data|]].
      * left. inversion Hr. split; [eexists|]; reflexivity.
      * right. inversion Hr. split; [reflexivity|].
        exists status, text, data. split; reflexivity.
      * left. inversion Hr. split; [eexists|]; reflexivity.
    + destruct content as [|text data];
        left; inversion Hr; (split; [eexists|]; reflexivity).
Qed.

(** A refresh throws before sending and changes nothing; or it sends its
    request and then throws and stores nothing, or stores the record of
    the response, or, rejected, destroys the record. *)
Lemma refresh_cases (net : network) (st st' : state) (r : result unit) :
  refreshTokens net st = (r, st') ->
  ((exists e, r = Throw e) /\ st' = st)
  \/ exists text,
       let st1 := answered net (refresh_request (self st) text) st in
       ((exists e, r = Throw e) /\ st' = st1)
       \/ (r = Ok tt /\
           exists status body data,
             outcome (net (refresh_request (self st) text))
               = Response status (Body body (Some data))
             /\ st' = saved
                        (with_tokens
                           (stored (VStr (access_token data))
                                   (match refresh_token data with
                                    | Some (c :: x) => VStr (c :: x)
                                    | Some [] | None =>
                                        stored_refresh_token (tokens (self st))
                                    end)
                                   (now (env st1) + expires_in data * 1000
                                    - 60000)
                                   (VStr (token_type data))) st1))
       \/ (exists status body,
             r = Throw (REFRESH_FAILED status body)
             /\ st' = with_file None (with_tokens VNull st1)).
Proof.
  intros Hr. rewrite refresh_steps in Hr. cbv zeta in Hr.
  destruct (truthy _);
    [|left; inversion Hr; split; [eexists|]; reflexivity].
  destruct (to_string _) as [text|err];
    [|left; inversion Hr; split; [eexists|]; reflexivity].
  right. exists text. cbv zeta.
  destruct (outcome _) as [|status content] eqn:Ho.
  - left. inversion Hr. split; [eexists|]; reflexivity.
  - destruct (ok status).
    + destruct content as [|body [data|]].
      * left. inversion Hr. split; [eexists|]; reflexivity.
      * right. left. inversion Hr. split; [reflexivity|].
        exists status, body, data. split; reflexivity.
      * left. inversion Hr. split; [eexists|]; reflexivity.
    + destruct content as [|body data].
      * left. inversion Hr. split; [eexists|]; reflexivity.
      * right. right. inversion Hr. exists status, body.
        split; reflexivity.
Qed.

Lemma isTokenExpired_state (st : state) : snd (isTokenExpired st) = st.
Proof.
  rewrite isTokenExpired_steps. cbv zeta.
  destruct (truthy _); [|reflexivity].
  destruct (get _ _); reflexivity.
Qed.

(** [getValidAccessToken] leaves the state as it was, or ends in the
    state a refresh from it ends in. *)
Lemma getValidAccessToken_state (net : network) (st : state) :
  snd (getValidAccessToken net st) = st
  \/ snd (getValidAccessToken net st) = snd (refreshTokens net st).
Proof.
  rewrite getValidAccessToken_steps.
  destruct (truthy _); [|left; reflexivity].
  pose proof (isTokenExpired_state st) as Hs.
  destruct (isTokenExpired st) as [[[|]|e] s]; simpl in Hs; subst s;
    try (left; reflexivity).
  right. destruct (refreshTokens net st) as [[u|e] s]; reflexivity.
Qed.

(** The state a call of the manager ends in, among the ones it can. *)
Lemma perform_state (c : call) (st : state) :
  snd (perform c st) = st
  \/ (exists id secret, snd (perform c st) = snd (construct id secret (env st)))
  \/ (exists net code,
        snd (perform c st) = snd (exchangeCodeForTokens net code st))
  \/ (exists net, snd (perform c st) = snd (refreshTokens net st))
  \/ (exists ms, snd (perform c st) = snd (elapse ms st)).
Proof.
  destruct c as [id secret| |net code|net| | |net|net answer|ms];
    cbn [perform].
  - right. left. exists id, secret. reflexivity.
  - left. reflexivity.
  - right. right. left. exists net, code. reflexivity.
  - right. right. right. left. exists net. reflexivity.
  - left. reflexivity.
  - left. unfold bind. pose proof (isTokenExpired_state st) as H.
    destruct (isTokenExpired st) as [[b|e] s]; exact H.
  - unfold bind.
    destruct (getValidAccessToken_state net st) as [H|H].
    + left. destruct (getValidAccessToken net st) as [[v|e] s]; exact H.
    + right. right. right. left. exists net.
      destruct (getValidAccessToken net st) as [[v|e] s]; exact H.
  - right. right. left. exists net, (trim answer). reflexivity.
  - right. right. right. right. exists ms. reflexivity.
Qed.

(** ** X6: the requests of the manager *)

Lemma perform_sent (c : call) (st : state) :
  sent (env (snd (perform c st))) = sent (env st)
  \/ exists req,
       sent (env (snd (perform c st))) = req :: sent (env st)
       /\ url req = TOKEN_URL.
Proof.
  destruct (perform_state c st)
    as [H | [(id & secret & H) | [(net & code & H) | [(net & H) | (ms & H)]]]];
    rewrite H; clear H.
  - left. reflexivity.
  - left. rewrite construct_steps. reflexivity.
  - right. destruct (exchangeCodeForTokens net code st) as [r st'] eqn:He.
    eexists. split; [exact (exchange_request_sent _ _ _ _ _ He)|reflexivity].
  - destruct (refreshTokens net st) as [r st'] eqn:Hr.
    destruct (refresh_cases _ _ _ _ Hr)
      as [[_ H] | (text & [[_ H] | [(_ & s & b & d & _ & H) | (s & b & _ & H)]])];
      cbn [snd]; subst st'.
    + left. reflexivity.
    + right. eexists. split; reflexivity.
    + right. rewrite saved_sent. eexists. split; reflexivity.
    + right. eexists. split; reflexivity.
  - left. reflexivity.
Qed.

(** X6: whatever is called on a manager, each call sends at most one
    request, and every request goes to the token endpoint: the requests
    added to the log are no more than the calls, and all carry
    [TOKEN_URL]. *)
Theorem requests_go_to_the_token_endpoint (calls : list call) (st : state) :
  exists added,
    sent (env (run calls st)) = added ++ sent (env st)
    /\ (List.length added <= List.length calls)%nat
    /\ Forall (fun req => url req = TOKEN_URL) added.
Proof.
  revert st. induction calls as [|c rest IH]; intros st.
  - exists []. split; [reflexivity|]. split; [reflexivity|constructor].
  - cbn [run]. destruct (IH (snd (perform c st))) as (added & Hs & Hl & Hf).
    destruct (perform_sent c st) as [H | (req & H & Hu)]; rewrite H in Hs.
    + exists added. split; [exact Hs|]. split; [simpl; lia|exact Hf].
    + exists (added ++ [req]). rewrite <- app_assoc. split; [exact Hs|].
      split.
      * rewrite length_app. simpl. lia.
      * apply Forall_app. split; [exact Hf|]. constructor; [exact Hu|constructor].
Qed.

(** ** X7: when the file changes *)

Lemma saved_in_step (a r t : value) (e : Z) (s : state) :
  exists written,
    JSON.stringify (tokens (self (saved (with_tokens (stored a r e t) s))))
      = Some written
    /\ file (env (saved (with_tokens (stored a r e t) s)))
       = Some (to_well_formed written).
Proof.
  rewrite saved_self.
  exact (saved_file _ (with_tokens (stored a r e t) s) eq_refl).
Qed.

(** How [getValidAccessToken] ends: in the state it started from, or as
    the one refresh it ran ended. *)
Lemma getValidAccessToken_cases (net : network) (st st' : state)
  (r : result value) :
  getValidAccessToken net st = (r, st') ->
  st' = st
  \/ exists ru,
       refreshTokens net st = (ru, st')
       /\ match ru with
          | Ok _ => exists v, r = Ok v
          | Throw e => r = Throw e
          end.
Proof.
  rewrite getValidAccessToken_steps.
  destruct (truthy _); [|intros H; inversion H; left; reflexivity].
  pose proof (isTokenExpired_state st) as Hs.
  destruct (isTokenExpired st) as [[[|]|e] s]; simpl in Hs; subst s;
    try (intros H; inversion H; left; reflexivity).
  destruct (refreshTokens net st) as [[u|e] s] eqn:Hr; intros H; inversion H.
  - right. exists (Ok u). subst s. split; [reflexivity|].
    destruct (refresh_cases _ _ _ _ Hr)
      as [[[x Hx] _] | (text & [[[x Hx] _]
                                | [(_ & q & b & d & _ & Hst) | (q & b & Hx & _)]])];
      try discriminate.
    subst st'. rewrite saved_self. eexists. reflexivity.
  - right. exists (Throw e). subst s. split; reflexivity.
Qed.

(** X7: a call of the manager changes the file in two cases only: it
    returns normally, having written the record it now holds, or it is a
    refresh the server rejected, and then the file is gone and the record
    is null. *)
Theorem file_changes_only_on_grant_or_rejection (c : call) (st st' : state)
  (r : result unit) :
  perform c st = (r, st') ->
  file (env st') <> file (env st) ->
  (r = Ok tt /\
   exists written,
     JSON.stringify (tokens (self st')) = Some written
     /\ file (env st') = Some (to_well_formed written))
  \/ (exists status body,
        r = Throw (REFRESH_FAILED status body)
        /\ file (env st') = None
        /\ tokens (self st') = VNull).
Proof.
  assert (Hex : forall net code,
             exchangeCodeForTokens net code st = (r, st') ->
             file (env st') <> file (env st) ->
             r = Ok tt /\
             exists written,
               JSON.stringify (tokens (self st')) = Some written
               /\ file (env st') = Some (to_well_formed written)).
  { intros net code He Hf.
    destruct (exchange_cases _ _ _ _ _ He)
      as [[_ H] | (Hr & s & b & d & _ & H)]; subst st'.
    - elim Hf. reflexivity.
    - split; [exact Hr|]. apply saved_in_step. }
  assert (Hre : forall net ru,
             refreshTokens net st = (ru, st') ->
             file (env st') <> file (env st) ->
             (exists u, ru = Ok u /\
              exists written,
                JSON.stringify (tokens (self st')) = Some written
                /\ file (env st') = Some (to_well_formed written))
             \/ (exists status body,
                   ru = Throw (REFRESH_FAILED status body)
                   /\ file (env st') = None /\ tokens (self st') = VNull)).
  { intros net ru Hr Hf.
    destruct (refresh_cases _ _ _ _ Hr)
      as [[_ H] | (text & [[_ H] | [(Hok & s & b & d & _ & H)
                                   | (s & b & Hrej & H)]])]; subst st'.
    - elim Hf. reflexivity.
    - elim Hf. reflexivity.
    - left. exists tt. split; [exact Hok|]. apply saved_in_step.
    - right. exists s, b. split; [exact Hrej|]. split; reflexivity. }
  destruct c as [id secret| |net code|net| | |net|net answer|ms];
    cbn [perform]; intros Hp Hf.
  - rewrite construct_steps in Hp. inversion Hp; subst. elim Hf. reflexivity.
  - inversion Hp; subst. elim Hf. reflexivity.
  - left. exact (Hex _ _ Hp Hf).
  - destruct (Hre _ _ Hp Hf) as [(u & Hu & H) | H].
    + left. destruct u. split; assumption.
    + right. exact H.
  - inversion Hp; subst. elim Hf. reflexivity.
  - unfold bind in Hp. pose proof (isTokenExpired_state st) as Hs.
    destruct (isTokenExpired st) as [[b|e] s]; simpl in Hs; subst s;
      inversion Hp; subst; elim Hf; reflexivity.
  - unfold bind in Hp.
    destruct (getValidAccessToken net st) as [rv s] eqn:Hg.
    assert (Hs : s = st') by (destruct rv; inversion Hp; reflexivity).
    subst s.
    destruct (getValidAccessToken_cases _ _ _ _ Hg) as [H | (ru & Hr & Hru)].
    + subst st'. elim Hf. reflexivity.
    + destruct (Hre _ _ Hr Hf) as [(u & Hu & H) | (s & b & Hrej & H)].
      * left. subst ru. destruct Hru as [v Hv]. subst rv.
        inversion Hp. split; [reflexivity|exact H].
      * right. subst ru. subst rv. inversion Hp. exists s, b.
        split; [reflexivity|exact H].
  - left. unfold runAuthorizationFlow, bind, getAuthorizationUrl in Hp.
    exact (Hex _ _ Hp Hf).
  - inversion Hp; subst. elim Hf. reflexivity.
Qed.

(** A refresh of A1/R1 on file that the server rejects with 401. *)
Lemma file_changes_only_on_grant_or_rejection_witness :
  exists st',
    perform (RefreshTokens (rejected 401)) expired_A1_on_file
      = (Throw (REFRESH_FAILED 401 (lit "invalid_grant")), st')
    /\ file (env st') = None.
Proof.
  destruct (perform (RefreshTokens (rejected 401)) expired_A1_on_file)
    as [r st'] eqn:Hp.
  exists st'.
  assert (Hf : file (env st') <> file (env expired_A1_on_file)).
  { vm_compute in Hp. inversion Hp; subst. discriminate. }
  destruct (file_changes_only_on_grant_or_rejection _ _ _ _ Hp Hf)
    as [[Hok _] | (s & b & Hr & Hnone & _)].
  - exfalso. subst r. vm_compute in Hp. discriminate.
  - split; [|exact Hnone].
    vm_compute in Hp. inversion Hp; subst. reflexivity.
Defined.

(** ** X8: the refreshed token is then served from memory *)

(** X8: when [getValidAccessToken] returns on an expired record, what it
    returns is the [access_token] of the response to the one refresh
    request it sent; and when that response granted more than 60 seconds,
    a call made right after returns the same token without a request. *)
Theorem refreshed_token_is_served_from_memory (net : network)
  (st st' : state) (v : value) (props : list (jstring * value)) (e : Z) :
  tokens (self st) = VObj props ->
  lookup (lit "expires_at") props = VNum (Int e) ->
  e <= now (env st) ->
  getValidAccessToken net st = (Ok v, st') ->
  exists req status body data,
    sent (env st') = req :: sent (env st)
    /\ outcome (net req) = Response status (Body body (Some data))
    /\ v = VStr (access_token data)
    /\ (60 < expires_in data ->
        forall net2, getValidAccessToken net2 st' = (Ok v, st')).
Proof.
  intros Ht He Hle Hg.
  rewrite getValidAccessToken_steps, isTokenExpired_steps in Hg.
  cbv zeta in Hg. rewrite Ht in Hg. cbn [truthy get] in Hg.
  rewrite He in Hg. unfold ge in Hg. cbn [to_number num_leb] in Hg.
  apply Z.leb_le in Hle. rewrite Hle in Hg.
  destruct (refreshTokens net st) as [[u|err] s] eqn:Hr; [|discriminate].
  destruct (refresh_cases _ _ _ _ Hr)
    as [[[x Hx] _] | (text & [[[x Hx] _]
                              | [(_ & q & b & d & Ho & Hst) | (q & b & Hx & _)]])];
    try discriminate.
  subst s. rewrite saved_self in Hg. cbn [with_tokens self tokens] in Hg.
  inversion Hg as [[Hv Hst']]. clear Hg.
  exists (refresh_request (self st) text), q, b, d.
  rewrite saved_sent.
  split; [reflexivity|]. split; [exact Ho|]. split; [reflexivity|].
  intros Hlong net2.
  rewrite getValidAccessToken_steps, isTokenExpired_stored, saved_self.
  cbn [with_tokens self tokens truthy answered env now].
  rewrite margin_leb.
  apply Z.leb_gt in Hlong. rewrite Hlong. reflexivity.
Qed.

(** A1/R1, expired, refreshed into A2 for an hour; the next call needs no
    network. *)
Lemma refreshed_token_is_served_from_memory_witness :
  exists st',
    getValidAccessToken (granted (lit "A2") None) expired_A1
      = (Ok (VStr (lit "A2")), st')
    /\ getValidAccessToken unreachable st' = (Ok (VStr (lit "A2")), st').
Proof.
  destruct (getValidAccessToken (granted (lit "A2") None) expired_A1)
    as [r st'] eqn:Hg.
  assert (Hr : r = Ok (VStr (lit "A2")))
    by (vm_compute in Hg; inversion Hg; reflexivity).
  subst r. exists st'. split; [reflexivity|].
  destruct (refreshed_token_is_served_from_memory
              (granted (lit "A2") None) expired_A1 st' _ fields_A1 3540000
              eq_refl eq_refl ltac:(simpl; lia) Hg)
    as (req & status & body & data & _ & Ho & _ & Hnext).
  apply Hnext. vm_compute in Ho. inversion Ho; subst data. simpl. lia.
Defined.

(** ** X9: the refresh token while the server does not rotate it *)

Lemma stored_refresh_token_stored (a r t : value) (e : Z) :
  stored_refresh_token (stored a r e t) = r.
Proof. reflexivity. Qed.

Lemma refresh_keeps_refresh_token (net : network) (st : state) :
  never_rotates net ->
  tokens (self (snd (refreshTokens net st))) = VNull
  \/ stored_refresh_token (tokens (self (snd (refreshTokens net st))))
     = stored_refresh_token (tokens (self st)).
Proof.
  intros Hn. destruct (refreshTokens net st) as [r st'] eqn:Hr. cbn [snd].
  destruct (refresh_cases _ _ _ _ Hr)
    as [[_ H] | (text & [[_ H] | [(_ & q & b & d & Ho & H) | (q & b & _ & H)]])];
    subst st'.
  - right. reflexivity.
  - right. reflexivity.
  - right. rewrite saved_self. cbn [with_tokens self tokens].
    rewrite stored_refresh_token_stored.
    destruct (Hn _ _ _ _ Ho) as [Hd | Hd]; rewrite Hd; reflexivity.
  - left. reflexivity.
Qed.

Lemma perform_keeps_refresh_token (c : call) (st : state) :
  uses_record c ->
  tokens (self (snd (perform c st))) = VNull
  \/ stored_refresh_token (tokens (self (snd (perform c st))))
     = stored_refresh_token (tokens (self st)).
Proof.
  destruct c as [id secret| |net code|net| | |net|net answer|ms];
    cbn [uses_record perform]; intros Hu; try destruct Hu;
    try (right; reflexivity).
  - exact (refresh_keeps_refresh_token net st Hu).
  - right. unfold bind. pose proof (isTokenExpired_state st) as H.
    destruct (isTokenExpired st) as [[b|e] s]; simpl in *; subst s; reflexivity.
  - unfold bind.
    assert (H : snd (let (r, st') := getValidAccessToken net st in
                     match r with
                     | Ok a => ret tt st'
                     | Throw e => (Throw e, st')
                     end) = snd (getValidAccessToken net st))
      by (destruct (getValidAccessToken net st) as [[v|e] s]; reflexivity).
    rewrite H.
    destruct (getValidAccessToken_state net st) as [Hs | Hs]; rewrite Hs.
    + right. reflexivity.
    + exact (refresh_keeps_refresh_token net st Hu).
Qed.

Lemma perform_keeps_null (c : call) (st : state) :
  uses_record c -> tokens (self st) = VNull ->
  tokens (self (snd (perform c st))) = VNull.
Proof.
  intros Hu Hn.
  destruct (perform_state c st)
    as [H | [(id & secret & H) | [(net & code & H) | [(net & H) | (ms & H)]]]].
  - rewrite H. exact Hn.
  - destruct c; cbn [uses_record] in Hu; try destruct Hu;
      cbn [perform] in *; try exact Hn.
    + rewrite refresh_steps. cbv zeta. rewrite Hn. exact Hn.
    + unfold bind. rewrite isTokenExpired_steps. cbv zeta. rewrite Hn. exact Hn.
    + unfold bind. rewrite getValidAccessToken_steps, Hn. exact Hn.
  - destruct c; cbn [uses_record] in Hu; try destruct Hu;
      cbn [perform] in *; try exact Hn.
    + rewrite refresh_steps. cbv zeta. rewrite Hn. exact Hn.
    + unfold bind. rewrite isTokenExpired_steps. cbv zeta. rewrite Hn. exact Hn.
    + unfold bind. rewrite getValidAccessToken_steps, Hn. exact Hn.
  - rewrite H, refresh_steps. cbv zeta. rewrite Hn. exact Hn.
  - rewrite H. exact Hn.
Qed.

(** X9: through any calls that neither authorize anew nor restart, made
    against servers whose responses carry no (or an empty)
    [refresh_token], the manager ends with the refresh token it started
    with, unless a rejected refresh has destroyed the record. *)
Theorem refresh_token_is_kept_without_rotation (calls : list call)
  (st : state) :
  Forall uses_record calls ->
  tokens (self (run calls st)) = VNull
  \/ stored_refresh_token (tokens (self (run calls st)))
     = stored_refresh_token (tokens (self st)).
Proof.
  intros Hall. revert st.
  induction Hall as [|c rest Hc Hrest IH]; intros st.
  - right. reflexivity.
  - cbn [run].
    destruct (perform_keeps_refresh_token c st Hc) as [Hn | Hk].
    + left. clear IH. revert Hn. generalize (snd (perform c st)).
      induction Hrest as [|c' rest' Hc' Hrest' IH']; intros s Hn.
      * exact Hn.
      * cbn [run]. apply IH'. exact (perform_keeps_null c' s Hc' Hn).
    + destruct (IH (snd (perform c st))) as [H | H].
      * left. exact H.
      * right. rewrite H. exact Hk.
Qed.

(** A1/R1 through an access that refreshes it into A2, a wait of two
    hours and another refresh: R1 is still the refresh token. *)
Lemma refresh_token_is_kept_without_rotation_witness :
  stored_refresh_token
    (tokens (self (run [GetValidAccessToken (granted (lit "A2") None);
                        Wait 7200000;
                        RefreshTokens (granted (lit "A3") (Some []))]
                       expired_A1)))
  = VStr (lit "R1").
Proof.
  assert (Hn : forall a x, x = None \/ x = Some [] ->
                           never_rotates (granted a x)).
  { intros a x Hx req status text data Ho.
    unfold granted, always in Ho. cbn [outcome] in Ho.
    inversion Ho. exact Hx. }
  destruct (refresh_token_is_kept_without_rotation
              [GetValidAccessToken (granted (lit "A2") None);
               Wait 7200000;
               RefreshTokens (granted (lit "A3") (Some []))]
              expired_A1) as [H | H].
  - apply Forall_cons; [apply Hn; left; reflexivity|].
    apply Forall_cons; [exact I|].
    apply Forall_cons; [apply Hn; right; reflexivity|].
    apply Forall_nil.
  - exfalso. vm_compute in H. discriminate.
  - rewrite H. reflexivity.
Defined.

(** ** X10: a grant without a refresh token *)

Lemma isTokenExpired_of_stored (st : state) (a r t : value) (e : Z) :
  tokens (self st) = stored a r e t ->
  isTokenExpired st = (Ok (e <=? now (env st)), st).
Proof.
  intros H. rewrite isTokenExpired_steps. cbv zeta. rewrite H. reflexivity.
Qed.

(** X10: when the response to a successful exchange has no (or an empty)
    [refresh_token], the manager holds a record ([hasValidTokens] is
    true) that can never be refreshed: at any later time [refreshTokens]
    throws "No refresh token available" without a request, and so does
    [getValidAccessToken] once the record has expired; the record stays
    as it is. *)
Theorem grant_without_refresh_token_is_stuck (net : network) (code : jstring)
  (st st' : state) :
  exchangeCodeForTokens net code st = (Ok tt, st') ->
  exists status text data,
    outcome (net (exchange_request (self st) code))
      = Response status (Body text (Some data))
    /\ (refresh_token data = None \/ refresh_token data = Some [] ->
        hasValidTokens st' = (Ok true, st')
        /\ forall ms net2,
             let st2 := snd (elapse ms st') in
             refreshTokens net2 st2 = (Throw NO_REFRESH_TOKEN, st2)
             /\ (expires_in data * 1000 - 60000 <= ms ->
                 getValidAccessToken net2 st2 = (Throw NO_REFRESH_TOKEN, st2))).
Proof.
  intros He.
  destruct (exchange_cases _ _ _ _ _ He)
    as [[[x Hx] _] | (_ & status & text & data & Ho & Hst)]; [discriminate|].
  exists status, text, data. split; [exact Ho|].
  intros Hd. subst st'. split.
  - unfold hasValidTokens, bind, this_tokens, ret. rewrite saved_self.
    reflexivity.
  - intros ms net2 st2.
    assert (Ht2 : tokens (self st2)
                  = stored (VStr (access_token data))
                      (match refresh_token data with
                       | Some x => VStr x
                       | None => VUndef
                       end)
                      (now (env st) + took (net (exchange_request (self st) code))
                       + expires_in data * 1000 - 60000)
                      (VStr (token_type data))).
    { unfold st2. cbn [elapse snd self]. rewrite saved_self. reflexivity. }
    assert (Hnow : now (env st2)
                   = now (env st) + took (net (exchange_request (self st) code))
                     + ms).
    { unfold st2. cbn [elapse snd env now]. rewrite saved_now. reflexivity. }
    assert (Hre : refreshTokens net2 st2 = (Throw NO_REFRESH_TOKEN, st2)).
    { rewrite refresh_steps. cbv zeta. rewrite Ht2.
      rewrite stored_refresh_token_stored.
      destruct Hd as [Hd | Hd]; rewrite Hd; reflexivity. }
    split; [exact Hre|].
    intros Hlate.
    rewrite getValidAccessToken_steps.
    rewrite (isTokenExpired_of_stored _ _ _ _ _ Ht2), Hnow, Ht2.
    cbn [truthy stored].
    match goal with
    | |- context [(?a <=? ?b)] =>
        assert (Hle : (a <=? b) = true) by (apply Z.leb_le; lia)
    end.
    rewrite Hle, Hre. reflexivity.
Qed.

(** An exchange answered without a refresh token, for an hour; an hour
    later the access fails although a record is held. *)
Lemma grant_without_refresh_token_is_stuck_witness :
  exists st',
    exchangeCodeForTokens (granted_for 3600 None) (lit "code") unauthorized
      = (Ok tt, st')
    /\ hasValidTokens st' = (Ok true, st')
    /\ fst (getValidAccessToken (granted (lit "A2") None)
              (snd (elapse 3600000 st'))) = Throw NO_REFRESH_TOKEN.
Proof.
  destruct (exchangeCodeForTokens (granted_for 3600 None) (lit "code")
              unauthorized) as [r st'] eqn:He.
  assert (Hok : r = Ok tt) by (vm_compute in He; inversion He; reflexivity).
  subst r. exists st'. split; [reflexivity|].
  destruct (grant_without_refresh_token_is_stuck _ _ _ _ He)
    as (status & text & data & Ho & H).
  vm_compute in Ho. inversion Ho; subst data.
  destruct (H (or_introl eq_refl)) as [Hv Hlater].
  split; [exact Hv|].
  destruct (Hlater 3600000 (granted (lit "A2") None)) as [_ Hg].
  rewrite Hg; [reflexivity|simpl; lia].
Defined.

(** ** X11: an exchange replaces whatever was stored *)

(** X11: the record and the file a successful exchange leaves do not
    depend on the record and the file it found: from two states with the
    same credentials and clock it succeeds in both or in none, and stores
    the same. *)
Theorem exchange_replaces_the_record (net : network) (code : jstring)
  (st1 st2 st1' : state) :
  clientId (self st1) = clientId (self st2) ->
  clientSecret (self st1) = clientSecret (self st2) ->
  now (env st1) = now (env st2) ->
  exchangeCodeForTokens net code st1 = (Ok tt, st1') ->
  exists st2',
    exchangeCodeForTokens net code st2 = (Ok tt, st2')
    /\ tokens (self st2') = tokens (self st1')
    /\ file (env st2') = file (env st1').
Proof.
  intros Hid Hsecret Hnow He.
  assert (Hreq : exchange_request (self st2) code
                 = exchange_request (self st1) code).
  { unfold exchange_request. rewrite Hid, Hsecret. reflexivity. }
  destruct (exchangeCodeForTokens net code st2) as [r2 st2'] eqn:He2.
  destruct (exchange_cases _ _ _ _ _ He)
    as [[[x Hx] _] | (_ & s1 & b1 & d1 & Ho1 & Hst1)]; [discriminate|].
  destruct (exchange_cases _ _ _ _ _ He2)
    as [[[x Hx] Hst2] | (Hok & s2 & b2 & d2 & Ho2 & Hst2)].
  - exfalso. subst r2. rewrite exchange_steps in He2. cbv zeta in He2.
    rewrite Hreq, Ho1 in He2.
    rewrite exchange_steps in He. cbv zeta in He. rewrite Ho1 in He.
    destruct (ok s1); discriminate.
  - subst r2. exists st2'. split; [reflexivity|].
    rewrite Hreq, Ho1 in Ho2. inversion Ho2; subst s2 b2 d2.
    subst st1' st2'. rewrite !saved_self.
    cbn [with_tokens self tokens answered env now]. rewrite Hreq, Hnow.
    split; [reflexivity|].
    unfold saved. cbn [with_tokens self tokens answered env now].
    destruct (JSON.stringify _) eqn:Hs; [reflexivity|].
    exfalso. unfold JSON.stringify, stored in Hs.
    match type of Hs with
    | JSON.serialize _ (VObj ?p) = None =>
        destruct (serialize_object [] p) as [w Hw]; rewrite Hw in Hs
    end.
    discriminate.
Qed.

(** An exchange by a manager without a record and by one holding A1/R1 on
    file, at the same instant. *)
Lemma exchange_replaces_the_record_witness :
  let st1 := {| self := manager_with VNull; env := at_time 3600000 None |} in
  exists st1' st2',
    exchangeCodeForTokens (granted (lit "A2") (Some (lit "R2"))) (lit "code")
      st1 = (Ok tt, st1')
    /\ exchangeCodeForTokens (granted (lit "A2") (Some (lit "R2"))) (lit "code")
         expired_A1_on_file = (Ok tt, st2')
    /\ tokens (self st2') = tokens (self st1')
    /\ file (env st2') = file (env st1').
Proof.
  intros st1.
  destruct (exchangeCodeForTokens (granted (lit "A2") (Some (lit "R2")))
              (lit "code") st1) as [r st1'] eqn:He.
  assert (Hok : r = Ok tt) by (vm_compute in He; inversion He; reflexivity).
  subst r.
  destruct (exchange_replaces_the_record _ _ st1 expired_A1_on_file st1'
              eq_refl eq_refl eq_refl He) as (st2' & He2 & Ht & Hf).
  exists st1', st2'. split; [reflexivity|]. split; [exact He2|].
  split; assumption.
Defined.

(** ** X12: how the server chooses its token provider *)

Import Server.



(** ** X13: the server and the record on file *)

(** X13: started with a client id and secret (and no static token), the
    server takes any JSON value other than null found on file as its
    record, expired or not, without prompting and without a request;
    finding no record, it exchanges the line the operator types, trimmed,
    and then either provides the manager holding the new record or
    rejects with the error of the exchange, the file being as before. *)
Theorem createTokenProvider_uses_the_file (vars : environment) (net : network)
  (answer : jstring) (w : world) (id secret : jstring) :
  given (SHARESIGHT_ACCESS_TOKEN vars) = false ->
  SHARESIGHT_CLIENT_ID vars = Some id -> id <> [] ->
  SHARESIGHT_CLIENT_SECRET vars = Some secret -> secret <> [] ->
  let fresh := {| self := {| clientId := id; clientSecret := secret;
                             tokens := VNull |};
                  env := w |} in
  (forall text v, file w = Some text -> JSON.parse text = Ok v -> v <> VNull ->
     createTokenProvider vars net answer w
     = (Provides (OAuth {| clientId := id; clientSecret := secret;
                           tokens := v |}), w))
  /\ (file w = None
      \/ (exists text e, file w = Some text /\ JSON.parse text = Throw e)
      \/ (exists text, file w = Some text /\ JSON.parse text = Ok VNull) ->
      forall r st',
        exchangeCodeForTokens net (trim answer) fresh = (r, st') ->
        createTokenProvider vars net answer w
        = (match r with
           | Ok _ => Provides (OAuth (self st'))
           | Throw e => Rejects e
           end, env st')
        /\ (forall e, r = Throw e -> file (env st') = file w)).
Proof.
  intros Hg Hid Hidn Hsec Hsecn fresh.
  assert (Hstart : forall v,
             match file w with
             | None => VNull
             | Some text => match JSON.parse text with
                            | Ok x => x
                            | Throw _ => VNull
                            end
             end = v ->
             createTokenProvider vars net answer w
             = match v with
               | VNull =>
                   match runAuthorizationFlow net answer fresh with
                   | (Throw e, st2) => (Rejects e, env st2)
                   | (Ok _, st2) => (Provides (OAuth (self st2)), env st2)
                   end
               | _ => (Provides (OAuth {| clientId := id;
                                          clientSecret := secret;
                                          tokens := v |}), w)
               end).
  { intros v Hv. unfold createTokenProvider. rewrite Hid, Hsec.
    destruct (SHARESIGHT_ACCESS_TOKEN vars) as [[|c t]|]; try discriminate;
      destruct id as [|c1 t1]; try (elim Hidn; reflexivity);
      destruct secret as [|c2 t2]; try (elim Hsecn; reflexivity);
      rewrite construct_steps, Hv;
      unfold hasValidTokens, bind, this_tokens, ret; cbn [self tokens env];
      destruct v; reflexivity. }
  split.
  - intros text v Hf Hp Hn. rewrite (Hstart v) by (rewrite Hf, Hp; reflexivity).
    destruct v; try reflexivity. elim Hn. reflexivity.
  - intros Hnone r st' He.
    rewrite (Hstart VNull).
    + unfold runAuthorizationFlow, bind, getAuthorizationUrl. rewrite He.
      split; [destruct r; reflexivity|].
      intros e Hr. subst r.
      exact (proj2 (exchange_throws_keeps _ _ _ _ _ He)).
    + destruct Hnone as [Hf | [(text & e & Hf & Hp) | (text & Hf & Hp)]];
        rewrite Hf; try rewrite Hp; reflexivity.
Qed.

(** A1/R1 on file, long expired: the server starts without a request.
    No file: the typed code is exchanged. *)
Lemma createTokenProvider_uses_the_file_witness :
  createTokenProvider oauth_vars unreachable [] world_with_A1
    = (Provides (OAuth (manager_with record_A1)), world_with_A1)
  /\ exists w',
       createTokenProvider oauth_vars (granted (lit "A1") (Some (lit "R1")))
         (lit " code ") empty_world
       = (Provides (OAuth (manager_with
                             (stored (VStr (lit "A1")) (VStr (lit "R1"))
                                     3541000 (VStr (lit "Bearer"))))), w').
Proof.
  pose proof (createTokenProvider_uses_the_file oauth_vars) as H.
  split.
  - destruct (H unreachable [] world_with_A1 (lit "my-client") (lit "s3cret")
                eq_refl eq_refl ltac:(discriminate) eq_refl
                ltac:(discriminate)) as [Hrec _].
    apply (Hrec _ record_A1 eq_refl); [|discriminate].
    apply parse_stored_text. simpl. lia.
  - destruct (H (granted (lit "A1") (Some (lit "R1"))) (lit " code ")
                empty_world (lit "my-client") (lit "s3cret")
                eq_refl eq_refl ltac:(discriminate) eq_refl
                ltac:(discriminate)) as [_ Hnone].
    match type of Hnone with
    | _ -> forall r st', exchangeCodeForTokens ?n ?c ?s = _ -> _ =>
        destruct (exchangeCodeForTokens n c s) as [r st'] eqn:He
    end.
    destruct (Hnone (or_introl eq_refl) r st' eq_refl) as [Hp _].
    exists (env st'). rewrite Hp.
    vm_compute in He. inversion He; subst. reflexivity.
Defined.

(** ** X14: the credentials of the authentication program *)

Import Cli.

Lemma trimmed_fixed (v : option jstring) : trim (trimmed v) = trimmed v.
Proof. destruct v as [s|]; [apply trim_idempotent|reflexivity]. Qed.

Lemma nonempty_true (s : jstring) : nonempty s = true -> s <> [].
Proof. destruct s; [discriminate|intros _; discriminate]. Qed.

(** A credential is not empty and trimmed, and at most one line was read
    for it. *)
Lemma credential_cases (from_env c : jstring) (closed : bool)
  (stdin rest : list jstring) :
  trim from_env = from_env ->
  credential from_env closed stdin = inr (c, rest) ->
  c <> [] /\ trim c = c
  /\ ((c = from_env /\ rest = stdin)
      \/ (from_env = [] /\ exists line, stdin = line :: rest /\ c = trim line)).
Proof.
  intros Ht. unfold credential.
  destruct (nonempty from_env) eqn:Hn.
  - intros H; inversion H; subst.
    split; [apply nonempty_true; exact Hn|]. split; [exact Ht|].
    left. split; reflexivity.
  - destruct stdin as [|line more]; cbn [prompt];
      [destruct closed; discriminate|].
    destruct (nonempty (trim line)) eqn:Hl; [|discriminate].
    intros H; inversion H; subst.
    split; [apply nonempty_true; exact Hl|].
    split; [apply trim_idempotent|].
    right. split; [destruct from_env; [reflexivity|discriminate]|].
    exists line. split; reflexivity.
Qed.

(** X14: whenever [getCredentials] returns, the client id and the client
    secret are not empty and carry no white space at either end; each is
    the trimmed variable of the environment, or, where that is unset or
    blank, the trimmed line typed at its prompt, the id being asked for
    before the secret; no other line is read. *)
Theorem getCredentials_are_trimmed (vars : environment) (closed : bool)
  (stdin rest : list jstring) (id secret : jstring) :
  getCredentials vars closed stdin = inr (id, secret, rest) ->
  let id_env := trimmed (SHARESIGHT_CLIENT_ID vars) in
  let secret_env := trimmed (SHARESIGHT_CLIENT_SECRET vars) in
  let after_id := if nonempty id_env then stdin else tl stdin in
  id <> [] /\ secret <> [] /\ trim id = id /\ trim secret = secret
  /\ id = (if nonempty id_env then id_env else trim (hd [] stdin))
  /\ secret = (if nonempty secret_env then secret_env
               else trim (hd [] after_id))
  /\ rest = (if nonempty secret_env then after_id else tl after_id).
Proof.
  unfold getCredentials. cbv zeta.
  pose proof (trimmed_fixed (SHARESIGHT_CLIENT_ID vars)) as Hi.
  pose proof (trimmed_fixed (SHARESIGHT_CLIENT_SECRET vars)) as Hs.
  set (i := trimmed (SHARESIGHT_CLIENT_ID vars)) in *.
  set (s := trimmed (SHARESIGHT_CLIENT_SECRET vars)) in *.
  destruct (nonempty i && nonempty s) eqn:Hb.
  - apply andb_true_iff in Hb. destruct Hb as [Hni Hns].
    intros H; inversion H; subst. rewrite Hni, Hns.
    repeat split; try (apply nonempty_true; assumption); assumption.
  - destruct (credential i closed stdin) as [e|[c1 r1]] eqn:H1;
      [discriminate|].
    destruct (credential s closed r1) as [e|[c2 r2]] eqn:H2; [discriminate|].
    intros H; inversion H; subst. clear H.
    destruct (credential_cases _ _ _ _ _ Hi H1) as (Hc1 & Ht1 & Hw1).
    destruct (credential_cases _ _ _ _ _ Hs H2) as (Hc2 & Ht2 & Hw2).
    split; [exact Hc1|]. split; [exact Hc2|].
    split; [exact Ht1|]. split; [exact Ht2|].
    destruct Hw1 as [[Hid Hr1] | [Hi0 (l1 & Hst & Hid)]];
      destruct Hw2 as [[Hsec Hr2] | [Hs0 (l2 & Hst2 & Hsec)]]; subst.
    + exfalso. rewrite (proj2 (andb_true_iff _ _)) in Hb; [discriminate|].
      split; [destruct i; [elim Hc1; reflexivity|reflexivity]
             |destruct s; [elim Hc2; reflexivity|reflexivity]].
    + rewrite Hs0 in *. cbn [nonempty].
      destruct (nonempty i) eqn:Hni;
        [|destruct i; [elim Hc1; reflexivity|discriminate]].
      repeat split.
    + rewrite Hi0 in *. cbn [nonempty].
      destruct (nonempty s) eqn:Hns;
        [|destruct s; [elim Hc2; reflexivity|discriminate]].
      repeat split.
    + rewrite Hi0, Hs0 in *. cbn [nonempty].
      repeat split.
Qed.

(** The id comes padded from the environment, the secret, blank there, is
    typed with spaces around it. *)
Lemma getCredentials_are_trimmed_witness :
  getCredentials padded_vars false [lit " sec "; lit "code"]
    = inr (lit "my-client", lit "sec", [lit "code"])
  /\ trim (lit "my-client") = lit "my-client" /\ trim (lit "sec") = lit "sec".
Proof.
  split; [reflexivity|].
  destruct (getCredentials_are_trimmed padded_vars false
              [lit " sec "; lit "code"] [lit "code"] (lit "my-client")
              (lit "sec") eq_refl)
    as (_ & _ & Hi & Hs & _).
  split; [exact Hi|exact Hs].
Defined.

(** ** X15, X16: how the authentication program ends *)

(** [main], once it has its credentials. *)
Lemma main_steps (vars : environment) (net : network) (closed : bool)
  (stdin rest : list jstring) (w : world) (id secret : jstring) :
  getCredentials vars closed stdin = inr (id, secret, rest) ->
  main vars net closed stdin w
  = match (match file w with
           | None => VNull
           | Some text => match JSON.parse text with
                          | Ok v => v
                          | Throw _ => VNull
                          end
           end) with
    | VNull =>
        match prompt closed rest with
        | Silence => (Waiting, w)
        | Ended => (EndOfInput, w)
        | Line code _ =>
            if nonempty code
            then match exchangeCodeForTokens net code
                         {| self := {| clientId := id; clientSecret := secret;
                                       tokens := VNull |};
                            env := w |} with
                 | (Ok _, st3) => (Exit 0, env st3)
                 | (Throw _, st3) => (Exit 1, env st3)
                 end
            else (Exit 1, w)
        end
    | _ => (Exit 0, w)
    end.
Proof.
  intros Hc. unfold main. rewrite Hc, construct_steps.
  unfold hasValidTokens, bind, this_tokens, ret, getAuthorizationUrl.
  cbn [self tokens env].
  destruct (file w) as [text|]; [destruct (JSON.parse text) as [[]|]|];
    try reflexivity;
    (destruct (prompt closed rest) as [code more| |]; try reflexivity;
     destruct (nonempty code); reflexivity).
Qed.

(** The program ends within [getCredentials] at an empty answer, at the
    end of the input, or waiting. *)
Lemma getCredentials_ends (vars : environment) (closed : bool)
  (stdin : list jstring) (e : ending) :
  getCredentials vars closed stdin = inl e ->
  e = Exit 1 \/ (e = EndOfInput /\ closed = true)
  \/ (e = Waiting /\ closed = false).
Proof.
  assert (Hc : forall from_env input,
             credential from_env closed input = inl e ->
             e = Exit 1 \/ (e = EndOfInput /\ closed = true)
             \/ (e = Waiting /\ closed = false)).
  { intros from_env input. unfold credential.
    destruct (nonempty from_env); [discriminate|].
    destruct input as [|line more]; cbn [prompt].
    - destruct closed; intros H; inversion H; auto.
    - destruct (nonempty (trim line)); intros H; inversion H; auto. }
  unfold getCredentials. cbv zeta.
  destruct (nonempty _ && nonempty _); [discriminate|].
  destruct (credential _ closed stdin) as [e1|[c1 r1]] eqn:H1.
  - intros H; inversion H; subst e1. exact (Hc _ _ H1).
  - destruct (credential _ closed r1) as [e2|[c2 r2]] eqn:H2; [|discriminate].
    intros H; inversion H; subst e2. exact (Hc _ _ H2).
Qed.

(** X15: when the file already holds a JSON value other than null, the
    authentication program ends with code 0 as soon as it has its
    credentials: it asks for no code, sends nothing and leaves the file as
    it is, also when the record on file has expired or lacks fields. *)
Theorem main_keeps_an_existing_record (vars : environment) (net : network)
  (closed : bool) (stdin rest : list jstring) (w : world)
  (id secret text : jstring) (v : value) :
  getCredentials vars closed stdin = inr (id, secret, rest) ->
  file w = Some text -> JSON.parse text = Ok v -> v <> VNull ->
  main vars net closed stdin w = (Exit 0, w).
Proof.
  intros Hc Hf Hp Hn. rewrite (main_steps _ net _ _ _ w _ _ Hc), Hf, Hp.
  destruct v; try reflexivity. elim Hn. reflexivity.
Qed.

(** A1/R1 on file, and a server that would grant A2. *)
Lemma main_keeps_an_existing_record_witness :
  main oauth_vars (granted (lit "A2") None) false [lit "code"] world_with_A1
  = (Exit 0, world_with_A1).
Proof.
  apply (main_keeps_an_existing_record oauth_vars (granted (lit "A2") None)
           false [lit "code"] [lit "code"] world_with_A1 (lit "my-client")
           (lit "s3cret") _ record_A1 eq_refl eq_refl).
  - apply parse_stored_text. simpl. lia.
  - discriminate.
Defined.

(** X16: the authentication program calls [process.exit(0)] only with a
    file in place, and calls [process.exit] with 0 or 1 only; when its
    input ends at a prompt it ends with status 0 as well, having changed
    nothing, so that a status 0 without a file means the input ended;
    every ending other than [process.exit(0)] leaves the file as it was
    found; at most one request is sent, to the token endpoint, and none
    when the program ends at a prompt. *)
Theorem main_exit_codes (vars : environment) (net : network) (closed : bool)
  (stdin : list jstring) (w w' : world) (e : ending) :
  main vars net closed stdin w = (e, w') ->
  (e = Exit 0 \/ e = Exit 1 \/ (e = EndOfInput /\ closed = true)
   \/ (e = Waiting /\ closed = false))
  /\ (e = Exit 0 -> file w' <> None)
  /\ (status e = Some 0 -> file w' = None -> e = EndOfInput)
  /\ (e <> Exit 0 -> file w' = file w)
  /\ (e = EndOfInput \/ e = Waiting -> w' = w)
  /\ (sent w' = sent w
      \/ exists req, sent w' = req :: sent w /\ url req = TOKEN_URL).
Proof.
  intros Hm.
  assert (Hsame :
            (e = Exit 0 -> file w <> None) ->
            w' = w ->
            e = Exit 0 \/ e = Exit 1 \/ (e = EndOfInput /\ closed = true)
            \/ (e = Waiting /\ closed = false) ->
            (e = Exit 0 \/ e = Exit 1 \/ (e = EndOfInput /\ closed = true)
             \/ (e = Waiting /\ closed = false))
            /\ (e = Exit 0 -> file w' <> None)
            /\ (status e = Some 0 -> file w' = None -> e = EndOfInput)
            /\ (e <> Exit 0 -> file w' = file w)
            /\ (e = EndOfInput \/ e = Waiting -> w' = w)
            /\ (sent w' = sent w
                \/ exists req, sent w' = req :: sent w /\ url req = TOKEN_URL)).
  { intros Hfile Hw He. subst w'.
    split; [exact He|]. split; [exact Hfile|].
    split.
    - intros Hs Hn.
      destruct He as [He | [He | [[He _] | [He _]]]]; subst e;
        [elim (Hfile eq_refl Hn)|discriminate|reflexivity|discriminate].
    - split; [reflexivity|]. split; [reflexivity|]. left. reflexivity. }
  destruct (getCredentials vars closed stdin) as [e0|[[id secret] rest]] eqn:Hc.
  - unfold main in Hm. rewrite Hc in Hm. inversion Hm; subst e0 w'.
    pose proof (getCredentials_ends _ _ _ _ Hc) as He.
    apply Hsame; [|reflexivity|].
    + intros H0. exfalso.
      destruct He as [He | [[He _] | [He _]]]; rewrite He in H0; discriminate.
    + destruct He as [He | [He | He]]; auto.
  - rewrite (main_steps _ net _ _ _ w _ _ Hc) in Hm.
    assert (Hv : match file w with
                 | None => VNull
                 | Some text => match JSON.parse text with
                                | Ok v => v
                                | Throw _ => VNull
                                end
                 end <> VNull -> file w <> None).
    { destruct (file w); [discriminate|intros H; elim H; reflexivity]. }
    destruct (match file w with
              | None => VNull
              | Some text => _
              end);
      try (inversion Hm; subst e w';
           apply Hsame;
           [intros _; apply Hv; discriminate|reflexivity|auto]).
    destruct (prompt closed rest) as [code more| |] eqn:Hp.
    2:{ inversion Hm; subst e w'.
        apply Hsame; [discriminate|reflexivity|].
        right. right. left. split; [reflexivity|].
        unfold prompt in Hp. destruct rest; [|discriminate].
        destruct closed; [reflexivity|discriminate]. }
    2:{ inversion Hm; subst e w'.
        apply Hsame; [discriminate|reflexivity|].
        right. right. right. split; [reflexivity|].
        unfold prompt in Hp. destruct rest; [|discriminate].
        destruct closed; [discriminate|reflexivity]. }
    destruct (nonempty code).
    2:{ inversion Hm; subst e w'.
        apply Hsame; [discriminate|reflexivity|auto]. }
    destruct (exchangeCodeForTokens net code _) as [r st3] eqn:He.
    destruct (exchange_cases _ _ _ _ _ He)
      as [[[err Hr] Hst] | [Hr (status0 & text & data & Ho & Hst)]];
      cbv zeta in *.
    + subst r st3. inversion Hm; subst.
      split; [auto|]. split; [discriminate|]. split; [discriminate|].
      split; [reflexivity|].
      split; [intros [H|H]; discriminate|].
      right. eexists. split; reflexivity.
    + subst r. inversion Hm; subst e w'. rewrite Hst.
      match goal with
      | |- context [saved (with_tokens (stored ?a ?b ?c ?d) ?s)] =>
          destruct (saved_in_step a b d c s) as (written & _ & Hfile)
      end.
      split; [auto|]. split; [intros _; rewrite Hfile; discriminate|].
      split; [intros _ Hn; rewrite Hfile in Hn; discriminate|].
      split; [intros H; elim H; reflexivity|].
      split; [intros [H|H]; discriminate|].
      right. rewrite saved_sent. eexists. split; reflexivity.
Qed.

(** A rejected code and a granted one, each with no file to start from;
    and an input that ends at the prompt for the code. *)
Lemma main_exit_codes_witness :
  (exists w', main oauth_vars (rejected 400) false [lit "code"] empty_world
              = (Exit 1, w')
              /\ file w' = None
              /\ exists req, sent w' = [req] /\ url req = TOKEN_URL)
  /\ (exists w', main oauth_vars (granted (lit "A1") None) false [lit "code"]
                   empty_world = (Exit 0, w')
                 /\ file w' <> None)
  /\ (exists e, main oauth_vars (granted (lit "A1") None) true []
                  empty_world = (e, empty_world)
                /\ status e = Some 0 /\ e = EndOfInput
                /\ file empty_world = None).
Proof.
  split; [|split].
  - destruct (main oauth_vars (rejected 400) false [lit "code"] empty_world)
      as [e w'] eqn:Hm.
    destruct (main_exit_codes _ _ _ _ _ _ _ Hm) as (_ & _ & _ & Hf & _ & Hs).
    vm_compute in Hm. injection Hm as He Hw. subst e. exists w'.
    split; [reflexivity|]. split; [apply Hf; discriminate|].
    subst w'. eexists. split; reflexivity.
  - destruct (main oauth_vars (granted (lit "A1") None) false [lit "code"]
                empty_world) as [e w'] eqn:Hm.
    destruct (main_exit_codes _ _ _ _ _ _ _ Hm) as (_ & Hf & _).
    vm_compute in Hm. injection Hm as He Hw. subst e. exists w'.
    split; [reflexivity|]. apply Hf. reflexivity.
  - destruct (main oauth_vars (granted (lit "A1") None) true [] empty_world)
      as [e w'] eqn:Hm.
    destruct (main_exit_codes _ _ _ _ _ _ _ Hm) as (_ & _ & Hend & _).
    assert (Hw : w' = empty_world)
      by (vm_compute in Hm; injection Hm as _ Hw; symmetry; exact Hw).
    subst w'. exists e. split; [reflexivity|].
    assert (He : e = EndOfInput).
    { apply Hend; [|reflexivity].
      vm_compute in Hm. injection Hm as He. subst e. reflexivity. }
    split; [rewrite He; reflexivity|]. split; [exact He|reflexivity].
Defined.

(** ** X17: the parameters of a request *)

(** A form-encoded byte is none of [&], [=] and [?]. *)
Lemma form_byte_count (b c : N) :
  c = 38%N \/ c = 61%N \/ c = 63%N ->
  count_occ N.eq_dec (Url.form_byte b) c = 0%nat.
Proof.
  intros Hc. apply count_occ_not_In. unfold Url.form_byte. intros Hin.
  destruct (b =? 32)%N.
  - destruct Hin as [H|[]]. lia.
  - match type of Hin with
    | In _ (if ?cond then _ else _) => destruct cond eqn:E
    end.
    + destruct Hin as [H|[]]. subst b.
      destruct Hc as [H|[H|H]]; subst c; vm_compute in E; discriminate.
    + unfold Url.upper_hex in Hin.
      set (hi := (b / 16)%N) in *. set (lo := (b mod 16)%N) in *.
      clearbody hi lo.
      destruct Hin as [H|[H|[H|[]]]]; [lia| |].
      * destruct (hi <? 10)%N eqn:E1;
          [apply N.ltb_lt in E1|apply N.ltb_ge in E1]; lia.
      * destruct (lo <? 10)%N eqn:E1;
          [apply N.ltb_lt in E1|apply N.ltb_ge in E1]; lia.
Qed.

Lemma form_encode_count (s : jstring) (c : N) :
  c = 38%N \/ c = 61%N \/ c = 63%N ->
  count_occ N.eq_dec (Url.form_encode s) c = 0%nat.
Proof.
  intros Hc. unfold Url.form_encode.
  induction (flat_map Url.utf8 (Url.code_points s)) as [|b l IH];
    [reflexivity|].
  cbn [flat_map]. rewrite count_occ_app, IH, (form_byte_count b c Hc).
  reflexivity.
Qed.

(** The parameters are joined by [&], each a name, [=] and a value. *)
Lemma search_params_count (entries : list (jstring * jstring)) :
  count_occ N.eq_dec (Url.search_params entries) 38%N
    = (List.length entries - 1)%nat
  /\ count_occ N.eq_dec (Url.search_params entries) 61%N
     = List.length entries
  /\ count_occ N.eq_dec (Url.search_params entries) 63%N = 0%nat.
Proof.
  induction entries as [|[k v] rest IH]; [repeat split|].
  destruct IH as (IH1 & IH2 & IH3).
  assert (Hstep : Url.search_params ((k, v) :: rest)
                  = Url.form_encode k ++ lit "=" ++ Url.form_encode v
                    ++ match rest with
                       | [] => []
                       | _ :: _ => lit "&" ++ Url.search_params rest
                       end).
  { destruct rest; [cbn [Url.search_params]; rewrite List.app_nil_r|];
      reflexivity. }
  rewrite Hstep. clear Hstep.
  rewrite !count_occ_app, !form_encode_count by auto.
  destruct rest as [|e rest'].
  - repeat split.
  - rewrite !count_occ_app, IH1, IH2, IH3. cbn [List.length].
    change (count_occ N.eq_dec (lit "=") 38%N) with 0%nat.
    change (count_occ N.eq_dec (lit "=") 61%N) with 1%nat.
    change (count_occ N.eq_dec (lit "=") 63%N) with 0%nat.
    change (count_occ N.eq_dec (lit "&") 38%N) with 1%nat.
    change (count_occ N.eq_dec (lit "&") 61%N) with 0%nat.
    change (count_occ N.eq_dec (lit "&") 63%N) with 0%nat.
    repeat split; lia.
Qed.

(** X17: no code, client id, client secret or refresh token can add a
    parameter: the body of the request of an exchange always holds four
    [&] and five [=], the body of a refresh request three and four, and
    the authorization URL one [?], two [&] and three [=]. *)
Theorem parameters_cannot_be_injected (net : network) (code : jstring)
  (st : state) :
  let occurs (c : N) (s : jstring) := count_occ N.eq_dec s c in
  (exists req,
     sent (env (snd (exchangeCodeForTokens net code st)))
       = req :: sent (env st)
     /\ occurs 38%N (body req) = 4%nat /\ occurs 61%N (body req) = 5%nat)
  /\ (sent (env (snd (refreshTokens net st))) = sent (env st)
      \/ exists req,
           sent (env (snd (refreshTokens net st))) = req :: sent (env st)
           /\ occurs 38%N (body req) = 3%nat
           /\ occurs 61%N (body req) = 4%nat)
  /\ (exists address,
        getAuthorizationUrl st = (Ok address, st)
        /\ occurs 63%N address = 1%nat /\ occurs 38%N address = 2%nat
        /\ occurs 61%N address = 3%nat).
Proof.
  intros occurs. unfold occurs. split; [|split].
  - destruct (exchangeCodeForTokens net code st) as [r st'] eqn:He.
    exists (exchange_request (self st) code).
    split; [exact (exchange_request_sent _ _ _ _ _ He)|].
    cbn [exchange_request body].
    match goal with
    | |- context [Url.search_params ?l] =>
        destruct (search_params_count l) as (H1 & H2 & _)
    end.
    split; assumption.
  - destruct (refreshTokens net st) as [r st'] eqn:Hr.
    assert (Hreq : forall text,
               count_occ N.eq_dec (body (refresh_request (self st) text)) 38%N
               = 3%nat
               /\ count_occ N.eq_dec (body (refresh_request (self st) text))
                    61%N = 4%nat).
    { intros text. cbn [refresh_request body].
      match goal with
      | |- context [Url.search_params ?l] =>
          destruct (search_params_count l) as (H1 & H2 & _)
      end.
      split; assumption. }
    destruct (refresh_cases _ _ _ _ Hr)
      as [[_ H] | (text & [[_ H] | [(_ & s & b & d & _ & H) | (s & b & _ & H)]])];
      cbn [snd]; subst st'.
    + left. reflexivity.
    + right. eexists. split; [reflexivity|apply Hreq].
    + right. rewrite saved_sent. eexists. split; [reflexivity|apply Hreq].
    + right. eexists. split; [reflexivity|apply Hreq].
  - eexists. split; [reflexivity|].
    match goal with
    | |- context [Url.search_params ?l] =>
        destruct (search_params_count l) as (H1 & H2 & H3)
    end.
    rewrite !count_occ_app, H1, H2, H3.
    repeat split.
Qed.

End Properties.
